(** * Geo-referencing core of the plan overlay tool

    A shallow embedding of the numeric core of [src/index.ts] (bounds
    calculators, adjustment applier, deep-refine clamping), of the polyline
    decoder ([src/index.ts] and [src/server/lib/roads.ts]) and of the
    intersection geocoder ([src/index.ts] and [src/server/lib/geocoding.ts]).

    JavaScript numbers are modelled by mathematical reals in the geometric
    part (the properties are stated "in real arithmetic"), and by integers
    and rationals in the polyline decoder, where the source works on 32-bit
    integers and divides by 1e5 at the end.  The module [Doubles] gives
    the bounds calculators and the adjustment applier a second time, on
    IEEE binary64 numbers, to show where strict inequalities and relative
    tolerances of the real model do not carry over to the doubles. *)

From Stdlib Require Import Reals Lra List String ZArith QArith Lia Bool.
From Stdlib Require Floats.PrimFloat.
Import ListNotations.

(* ================================================================== *)
(** ** Data model and pure geometry ([src/index.ts]) *)
(* ================================================================== *)

Module Geo.
Local Open Scope R_scope.

(** [type Bounds = { north; south; east; west }] *)
Record Bounds : Type := mkBounds
  { north : R; south : R; east : R; west : R }.

(** [{ lat: number; lng: number }] *)
Record LatLng : Type := mkLatLng { lat : R; lng : R }.

(** [type RefinementAdjustment]; [shiftMeters] is a nested object. *)
Record ShiftMeters : Type := mkShift { shiftNorth : R; shiftEast : R }.

Record RefinementAdjustment : Type := mkAdjustment
  { shiftMeters : ShiftMeters;
    scaleFactor : R;
    confidence  : R;
    reasoning   : string }.

(** The [cornerPosition] argument.  The TypeScript type lists the four
    corners; the [switch] also has a [default] branch for any other string
    reaching it at run time, kept here as [otherCorner]. *)
Inductive CornerPosition : Type :=
  | northwest | northeast | southwest | southeast
  | otherCorner (name : string).

Definition METERS_PER_LAT_DEG : R := 111000.

(** [JS >=] on numbers, as a boolean. *)
Definition Rgeb (x y : R) : bool := if Rle_dec y x then true else false.
(** [JS <] and [>] on numbers. *)
Definition Rltb (x y : R) : bool := if Rlt_dec x y then true else false.
Definition Rgtb (x y : R) : bool := Rltb y x.

(** [calculateBoundsFromCorner(corner, cornerPosition, sizeMeters, aspectRatio)] *)
Definition calculateBoundsFromCorner
    (corner : LatLng) (cornerPosition : CornerPosition)
    (sizeMeters aspectRatio : R) : Bounds :=
  let latRadians := (lat corner * PI) / 180 in
  let metersPerLngDeg := cos latRadians * 111000 in
  let widthMeters :=
    if Rgeb aspectRatio 1 then sizeMeters else sizeMeters * aspectRatio in
  let heightMeters :=
    if Rgeb aspectRatio 1 then sizeMeters / aspectRatio else sizeMeters in
  let latDelta := heightMeters / METERS_PER_LAT_DEG in
  let lngDelta := widthMeters / metersPerLngDeg in
  match cornerPosition with
  | northwest =>
      {| north := lat corner; south := lat corner - latDelta;
         west := lng corner; east := lng corner + lngDelta |}
  | northeast =>
      {| north := lat corner; south := lat corner - latDelta;
         east := lng corner; west := lng corner - lngDelta |}
  | southwest =>
      {| south := lat corner; north := lat corner + latDelta;
         west := lng corner; east := lng corner + lngDelta |}
  | southeast =>
      {| south := lat corner; north := lat corner + latDelta;
         east := lng corner; west := lng corner - lngDelta |}
  | otherCorner _ =>
      {| north := lat corner; south := lat corner - latDelta;
         west := lng corner; east := lng corner + lngDelta |}
  end.

(** [calculateBounds(center, sizeMeters, aspectRatio)] *)
Definition calculateBounds
    (center : LatLng) (sizeMeters aspectRatio : R) : Bounds :=
  let latRadians := (lat center * PI) / 180 in
  let metersPerLngDeg := cos latRadians * 111000 in
  let widthMeters :=
    if Rgeb aspectRatio 1 then sizeMeters else sizeMeters * aspectRatio in
  let heightMeters :=
    if Rgeb aspectRatio 1 then sizeMeters / aspectRatio else sizeMeters in
  let latDelta := heightMeters / METERS_PER_LAT_DEG / 2 in
  let lngDelta := widthMeters / metersPerLngDeg / 2 in
  {| north := lat center + latDelta;
     south := lat center - latDelta;
     east := lng center + lngDelta;
     west := lng center - lngDelta |}.

(** [applyAdjustment(currentBounds, adjustment)] *)
Definition applyAdjustment
    (currentBounds : Bounds) (adjustment : RefinementAdjustment) : Bounds :=
  let currentCenter :=
    {| lat := (north currentBounds + south currentBounds) / 2;
       lng := (east currentBounds + west currentBounds) / 2 |} in
  let latRadians := (lat currentCenter * PI) / 180 in
  let metersPerLngDeg := cos latRadians * 111000 in
  let latShift := shiftNorth (shiftMeters adjustment) / 111000 in
  let lngShift := shiftEast (shiftMeters adjustment) / metersPerLngDeg in
  let newCenter :=
    {| lat := lat currentCenter + latShift;
       lng := lng currentCenter + lngShift |} in
  let currentLatSpan := north currentBounds - south currentBounds in
  let currentLngSpan := east currentBounds - west currentBounds in
  let newLatSpan := currentLatSpan * scaleFactor adjustment in
  let newLngSpan := currentLngSpan * scaleFactor adjustment in
  {| north := lat newCenter + newLatSpan / 2;
     south := lat newCenter - newLatSpan / 2;
     east := lng newCenter + newLngSpan / 2;
     west := lng newCenter - newLngSpan / 2 |}.

(** *** Vocabulary of the statements *)

(** Center of a bounding box, as the source computes it inline. *)
Definition centerOf (b : Bounds) : LatLng :=
  {| lat := (north b + south b) / 2; lng := (east b + west b) / 2 |}.

(** The data-model invariant of [Bounds]. *)
Definition validBounds (b : Bounds) : Prop :=
  north b > south b /\ east b > west b.

(** Width and height in meters derived from size and aspect ratio. *)
Definition widthOf (sizeMeters aspectRatio : R) : R :=
  if Rgeb aspectRatio 1 then sizeMeters else sizeMeters * aspectRatio.
Definition heightOf (sizeMeters aspectRatio : R) : R :=
  if Rgeb aspectRatio 1 then sizeMeters / aspectRatio else sizeMeters.

End Geo.

(* ================================================================== *)
(** ** Deep refinement: the [/api/ai/deep-refine] completion and the
       client loop that drives it *)
(* ================================================================== *)

Module DeepRefine.
Import Geo.
Local Open Scope R_scope.

(** [Math.sign] on a number that is not NaN. *)
Definition Math_sign (x : R) : R :=
  if Rltb 0 x then 1 else if Rltb x 0 then -1 else 0.

(** [Math.abs] *)
Definition Math_abs (x : R) : R := Rabs x.

(** The payload of the ["complete"] event.  [adjustment] is the parsed
    object after the clamping code has assigned to its [shiftMeters]
    fields; [shouldContinue] is [null] ([None]) when nothing was parsed,
    because [adjustment && ...] then evaluates to [adjustment] itself. *)
Record CompleteEvent : Type := mkComplete
  { adjustment : option RefinementAdjustment;
    newBounds : option Bounds;
    boundsClamped : bool;
    shouldContinue : option bool }.

(** Assignments [adjustment.shiftMeters.north = v] and [... .east = v]. *)
Definition set_north (a : RefinementAdjustment) (v : R) : RefinementAdjustment :=
  {| shiftMeters := {| shiftNorth := v; shiftEast := shiftEast (shiftMeters a) |};
     scaleFactor := scaleFactor a; confidence := confidence a;
     reasoning := reasoning a |}.

Definition set_east (a : RefinementAdjustment) (v : R) : RefinementAdjustment :=
  {| shiftMeters := {| shiftNorth := shiftNorth (shiftMeters a); shiftEast := v |};
     scaleFactor := scaleFactor a; confidence := confidence a;
     reasoning := reasoning a |}.

(** The block guarded by [if (originalBounds)]: returns the adjustment
    as mutated, and the [boundsClamped] flag. *)
Definition clampToOriginal
    (currentBounds originalBounds : Bounds) (maxShiftMeters : R)
    (adjustment : RefinementAdjustment) : RefinementAdjustment * bool :=
  let originalCenter :=
    {| lat := (north originalBounds + south originalBounds) / 2;
       lng := (east originalBounds + west originalBounds) / 2 |} in
  let currentCenter :=
    {| lat := (north currentBounds + south currentBounds) / 2;
       lng := (east currentBounds + west currentBounds) / 2 |} in
  let currentOffsetNorth := (lat currentCenter - lat originalCenter) * 111000 in
  let currentOffsetEast :=
    (lng currentCenter - lng originalCenter) * 111000
    * cos ((lat currentCenter * PI) / 180) in
  let proposedOffsetNorth :=
    currentOffsetNorth + shiftNorth (shiftMeters adjustment) in
  let proposedOffsetEast :=
    currentOffsetEast + shiftEast (shiftMeters adjustment) in
  let '(adjustment, boundsClamped) :=
    if Rgtb (Math_abs proposedOffsetNorth) maxShiftMeters
    then (set_north adjustment
            (Math_sign proposedOffsetNorth * maxShiftMeters - currentOffsetNorth),
          true)
    else (adjustment, false) in
  if Rgtb (Math_abs proposedOffsetEast) maxShiftMeters
  then (set_east adjustment
          (Math_sign proposedOffsetEast * maxShiftMeters - currentOffsetEast),
        true)
  else (adjustment, boundsClamped).

(** The request fields the computation reads; [maxShiftMeters] absent
    means the destructuring default [200]. *)
Record Request : Type := mkRequest
  { currentBounds : Bounds;
    originalBounds : option Bounds;
    maxShiftMeters : option R }.

(** From [const adjustment = parseJsonResponse(fullText)] to the payload
    of the ["complete"] event.  [parsed] is what [parseJsonResponse]
    returned ([None] for [null]). *)
Definition deepRefineComplete
    (req : Request) (parsed : option RefinementAdjustment) : CompleteEvent :=
  let maxShift := match maxShiftMeters req with Some m => m | None => 200 end in
  match parsed with
  | None =>
      {| adjustment := None; newBounds := None;
         boundsClamped := false; shouldContinue := None |}
  | Some adjustment0 =>
      let '(adjustment1, clamped) :=
        match originalBounds req with
        | Some original =>
            clampToOriginal (currentBounds req) original maxShift adjustment0
        | None => (adjustment0, false)
        end in
      {| adjustment := Some adjustment1;
         newBounds := Some (applyAdjustment (currentBounds req) adjustment1);
         boundsClamped := clamped;
         shouldContinue :=
           Some (Rltb (confidence adjustment1) (9 / 10)
                 && (Rgtb (Math_abs (shiftNorth (shiftMeters adjustment1))) 2
                     || Rgtb (Math_abs (shiftEast (shiftMeters adjustment1))) 2)) |}
  end.

(** [!result.shouldContinue] in the client: [null] and [false] are falsy. *)
Definition truthy (b : option bool) : bool :=
  match b with Some true => true | _ => false end.

(** The [while (currentIteration < maxIterations)] loop of
    [handleDeepRefine] in the client component.  [ai] stands for the
    model's parsed answer at a given iteration for given bounds;
    [remaining] is [maxIterations - currentIteration].  The result lists,
    for every iteration run, the bounds sent and the event received. *)
Fixpoint deepRefineLoop
    (ai : nat -> Bounds -> option RefinementAdjustment)
    (original : option Bounds) (maxShift : R)
    (remaining currentIteration : nat) (currentBoundsLocal : Bounds)
    : list (Bounds * CompleteEvent) :=
  match remaining with
  | O => []
  | S remaining' =>
      let currentIteration := S currentIteration in
      let result :=
        deepRefineComplete
          {| currentBounds := currentBoundsLocal;
             originalBounds := original;
             maxShiftMeters := Some maxShift |}
          (ai currentIteration currentBoundsLocal) in
      (currentBoundsLocal, result) ::
      match adjustment result with
      | Some _ =>
          let currentBoundsLocal :=
            match newBounds result with
            | Some nb => nb
            | None => currentBoundsLocal
            end in
          if truthy (shouldContinue result)
          then deepRefineLoop ai original maxShift remaining'
                 currentIteration currentBoundsLocal
          else []
      | None => []
      end
  end.

(** [handleDeepRefine]: five iterations at most, cap of 200 meters. *)
Definition handleDeepRefine
    (ai : nat -> Bounds -> option RefinementAdjustment)
    (original : option Bounds) (bounds : Bounds)
    : list (Bounds * CompleteEvent) :=
  deepRefineLoop ai original 200 5 0 bounds.

(** The server's own measure of a center's offset from the original
    center, in meters ([currentOffsetNorth], [currentOffsetEast]). *)
Definition offsetNorth (originalCenter c : LatLng) : R :=
  (lat c - lat originalCenter) * 111000.

Definition offsetEast (originalCenter c : LatLng) : R :=
  (lng c - lng originalCenter) * 111000 * cos ((lat c * PI) / 180).

(** East offset with the longitude scale taken at a given latitude. *)
Definition offsetEastAt (latDeg : R) (originalCenter c : LatLng) : R :=
  (lng c - lng originalCenter) * 111000 * cos ((latDeg * PI) / 180).

(** What the clamping code leaves in a shift field: the proposed shift,
    or the shift that lands on the cap when the proposed offset is beyond it. *)
Definition clampShift (currentOffset proposedShift maxShiftMeters : R) : R :=
  if Rgtb (Math_abs (currentOffset + proposedShift)) maxShiftMeters
  then Math_sign (currentOffset + proposedShift) * maxShiftMeters - currentOffset
  else proposedShift.

(** The cap on both axes, the east offset being measured as the server
    measures it: with the longitude scale at the latitude of the center
    that is being measured. *)
Definition withinCap (original b : Bounds) (cap : R) : Prop :=
  Rabs (offsetNorth (centerOf original) (centerOf b)) <= cap
  /\ Rabs (offsetEast (centerOf original) (centerOf b)) <= cap.

(** The cap on both axes, the east offset being measured with the
    longitude scale at latitude [latDeg]. *)
Definition withinCapAt (latDeg : R) (original b : Bounds) (cap : R) : Prop :=
  Rabs (offsetNorth (centerOf original) (centerOf b)) <= cap
  /\ Rabs (offsetEastAt latDeg (centerOf original) (centerOf b)) <= cap.

(** The cap in force for a request. *)
Definition capOf (req : Request) : R :=
  match maxShiftMeters req with Some m => m | None => 200 end.

(** Bounds centered at latitude 60, where the longitude scale is exactly
    half of the one at the equator. *)
Definition boundsAt60 : Bounds :=
  {| north := 61; south := 59; east := 1; west := -1 |}.

(** A proposal of 200 m to the south and 200 m to the east. *)
Definition southEast200 : RefinementAdjustment :=
  {| shiftMeters := {| shiftNorth := -200; shiftEast := 200 |};
     scaleFactor := 1; confidence := 1 / 2; reasoning := "" |}.

(** A request whose current and original bounds are both [boundsAt60],
    with the default cap. *)
Definition requestAt60 : Request :=
  {| currentBounds := boundsAt60; originalBounds := Some boundsAt60;
     maxShiftMeters := None |}.

(** The answer that proposes no change. *)
Definition noShift : RefinementAdjustment :=
  {| shiftMeters := {| shiftNorth := 0; shiftEast := 0 |};
     scaleFactor := 1; confidence := 1 / 2; reasoning := "" |}.

(** A confident answer proposing a large shift, and a model that always
    gives it. *)
Definition confidentFar : RefinementAdjustment :=
  {| shiftMeters := {| shiftNorth := 50; shiftEast := -30 |};
     scaleFactor := 1; confidence := 95 / 100; reasoning := "" |}.

Definition alwaysConfidentFar (iteration : nat) (b : Bounds)
    : option RefinementAdjustment := Some confidentFar.

(** The [shiftMeters] object that the [shouldContinue] expression reads:
    the parsed one when the request has no [originalBounds], and
    otherwise the parsed one after the two guarded assignments of the
    clamping block. *)
Definition appliedShift (req : Request) (parsed : RefinementAdjustment)
    : ShiftMeters :=
  match originalBounds req with
  | Some original =>
      {| shiftNorth :=
           clampShift
             (offsetNorth (centerOf original) (centerOf (currentBounds req)))
             (shiftNorth (shiftMeters parsed)) (capOf req);
         shiftEast :=
           clampShift
             (offsetEast (centerOf original) (centerOf (currentBounds req)))
             (shiftEast (shiftMeters parsed)) (capOf req) |}
  | None => shiftMeters parsed
  end.

(** The adjustment object after the clamping block has run on it. *)
Definition appliedAdjustment (req : Request) (parsed : RefinementAdjustment)
    : RefinementAdjustment :=
  {| shiftMeters := appliedShift req parsed;
     scaleFactor := scaleFactor parsed;
     confidence := confidence parsed;
     reasoning := reasoning parsed |}.

(** The stop test of the [shouldContinue] expression, on an adjustment
    and the shifts that are read. *)
Definition settled (conf : R) (s : ShiftMeters) : Prop :=
  conf >= 9 / 10 \/ (Rabs (shiftNorth s) <= 2 /\ Rabs (shiftEast s) <= 2).

(** Bounds of the size of [boundsAt60] whose center lies 1110 m north of
    the center of [boundsAt60], and the request a client sends for them
    with [boundsAt60] as the original bounds. *)
Definition driftedBounds : Bounds :=
  {| north := 6101 / 100; south := 5901 / 100; east := 1; west := -1 |}.

Definition driftedRequest : Request :=
  {| currentBounds := driftedBounds; originalBounds := Some boundsAt60;
     maxShiftMeters := Some 200 |}.

(** A model that always answers that nothing has to change. *)
Definition alwaysNoShift (iteration : nat) (b : Bounds)
    : option RefinementAdjustment := Some noShift.

End DeepRefine.

(* ================================================================== *)
(** ** Polyline decoder ([decodePolyline], same text in [src/index.ts]
       and [src/server/lib/roads.ts]) *)
(* ================================================================== *)

Module Polyline.
Local Open Scope Z_scope.

(** A JavaScript string as its sequence of UTF-16 code units. *)
Definition JsString : Type := list Z.

Definition codeUnits (s : string) : JsString :=
  List.map (fun c => Z.of_nat (Ascii.nat_of_ascii c)) (list_ascii_of_string s).

(** [ToInt32]: the wrap-around every bitwise operator applies. *)
Definition ToInt32 (x : Z) : Z := (x + 2 ^ 31) mod 2 ^ 32 - 2 ^ 31.

(** A number that may be NaN; [ToInt32(NaN) = 0]. *)
Definition ToInt32_num (x : option Z) : Z :=
  match x with Some v => ToInt32 v | None => 0 end.

(** [a & b], [a | b], [a << n], [a >> n], [~a] on 32-bit integers; the
    shift count is taken modulo 32. *)
Definition js_and (a b : Z) : Z := ToInt32 (Z.land (ToInt32 a) (ToInt32 b)).
Definition js_or (a b : Z) : Z := ToInt32 (Z.lor (ToInt32 a) (ToInt32 b)).
Definition js_shl (a n : Z) : Z :=
  ToInt32 (Z.shiftl (ToInt32 a) (Z.land n 31)).
Definition js_sar (a n : Z) : Z := Z.shiftr (ToInt32 a) (Z.land n 31).
Definition js_not (a : Z) : Z := Z.lnot (ToInt32 a).

(** [encoded.charCodeAt(idx)]: NaN ([None]) outside the string. *)
Definition charCodeAt (encoded : JsString) (idx : nat) : option Z :=
  nth_error encoded idx.

(** [byte >= 0x20], false on NaN. *)
Definition continues (byte : option Z) : bool :=
  match byte with Some b => 32 <=? b | None => false end.

(** A decoded point, [{ lat: lat / 1e5, lng: lng / 1e5 }]. *)
Record LatLng : Type := mkLatLng { lat : Q; lng : Q }.

(** One [do { ... } while (byte >= 0x20)] loop; returns the cursor and
    [result] on exit, [None] when the iteration budget is used up. *)
Fixpoint decodeGroup (fuel : nat) (encoded : JsString)
    (idx : nat) (shift result : Z) : option (nat * Z) :=
  match fuel with
  | O => None
  | S fuel' =>
      let byte := option_map (fun c => c - 63) (charCodeAt encoded idx) in
      let idx := (idx + 1)%nat in
      let result := js_or result (js_shl (js_and (ToInt32_num byte) 31) shift) in
      let shift := shift + 5 in
      if continues byte
      then decodeGroup fuel' encoded idx shift result
      else Some (idx, result)
  end.

(** [(result & 1) !== 0 ? ~(result >> 1) : result >> 1] *)
Definition zigzag (result : Z) : Z :=
  if negb (js_and result 1 =? 0) then js_not (js_sar result 1)
  else js_sar result 1.

(** The [while (idx < encoded.length)] loop.  [lat] and [lng] are
    JavaScript numbers holding integers, added without wrap-around. *)
Fixpoint decodeLoop (fuel : nat) (encoded : JsString)
    (idx : nat) (lat lng : Z) (points : list LatLng) : option (list LatLng) :=
  match fuel with
  | O => None
  | S fuel' =>
      if (idx <? List.length encoded)%nat then
        match decodeGroup fuel encoded idx 0 0 with
        | None => None
        | Some (idx, result) =>
            let deltaLat := zigzag result in
            let lat := lat + deltaLat in
            match decodeGroup fuel encoded idx 0 0 with
            | None => None
            | Some (idx, result) =>
                let deltaLng := zigzag result in
                let lng := lng + deltaLng in
                decodeLoop fuel' encoded idx lat lng
                  (points ++ [ {| lat := inject_Z lat / 100000;
                                  lng := inject_Z lng / 100000 |} ])
            end
        end
      else Some points
  end.

(** [decodePolyline(encoded)] run with a budget of [fuel] loop iterations. *)
Definition decodePolylineFuel (fuel : nat) (encoded : JsString)
    : option (list LatLng) :=
  decodeLoop fuel encoded 0 0 0 [].

(** [decodePolyline(encoded)]; the budget of one more than the length is
    shown below to be enough for every input. *)
Definition decodePolyline (encoded : JsString) : list LatLng :=
  match decodePolylineFuel (S (List.length encoded)) encoded with
  | Some points => points
  | None => []
  end.

(** The fixture of [roads.test.ts]. *)
Definition fixture : JsString := codeUnits "_p~iF~ps|U_ulLnnqC_mqNvxq`@".

End Polyline.

(* ================================================================== *)
(** ** Intersection geocoder ([geocodeIntersection], [src/index.ts] and
       [src/server/lib/geocoding.ts]) *)
(* ================================================================== *)

Module Geocoding.
Local Open Scope string_scope.

(** How an awaited promise settles. *)
Inductive Outcome (A : Type) : Type :=
  | Resolved (value : A)
  | Rejected (error : string).
Arguments Resolved {A} value.
Arguments Rejected {A} error.

Section Geocoder.

(** State of the outside world (network, API). *)
Variable World : Type.
(** [GeocodingResult]: [{ lat, lng, formattedAddress }]. *)
Variable GeocodingResult : Type.
(** [geocodeAddress(address)]: [null] is [None]; the variant of
    [src/index.ts] catches every error and never rejects, the one of
    [lib/geocoding.ts] rejects when [fetch] does. *)
Variable geocodeAddress :
  string -> World -> Outcome (option GeocodingResult) * World.

(** Asynchronous computations: world passing, with the list of
    addresses handed to [geocodeAddress], in call order. *)
Definition Async (A : Type) : Type :=
  World -> Outcome A * World * list string.

Definition ret {A} (a : A) : Async A := fun w => (Resolved a, w, []).

Definition bind {A B} (m : Async A) (f : A -> Async B) : Async B :=
  fun w =>
    match m w with
    | (Resolved a, w', queries) =>
        let '(r, w'', queries') := f a w' in (r, w'', (queries ++ queries')%list)
    | (Rejected e, w', queries) => (Rejected e, w', queries)
    end.

(** [await geocodeAddress(query)] *)
Definition awaitGeocodeAddress (query : string)
    : Async (option GeocodingResult) :=
  fun w => let '(r, w') := geocodeAddress query w in (r, w', [query]).

(** [geocodeIntersection(road1, road2, city, state)] *)
Definition geocodeIntersection (road1 road2 city state : string)
    : Async (option GeocodingResult) :=
  let intersectionQuery :=
    road1 ++ " & " ++ road2 ++ ", " ++ city ++ ", " ++ state in
  bind (awaitGeocodeAddress intersectionQuery) (fun result =>
    match result with
    | Some r => ret (Some r)
    | None =>
        let fallbackQuery :=
          road1 ++ " and " ++ road2 ++ ", " ++ city ++ ", " ++ state in
        awaitGeocodeAddress fallbackQuery
    end).

End Geocoder.

Arguments ret {World A} a.
Arguments bind {World A B} m f.

(** A geocoder for examples: the world counts the calls made, and only
    the ["and"] phrasing of one intersection in Tempe is known. *)
Definition andOnlyGeocoder (address : string) (calls : nat)
    : Outcome (option (Z * Z)) * nat :=
  if String.eqb address "Mill Ave and University Dr, Tempe, AZ"
  then (Resolved (Some (33421, -111940)%Z), S calls)
  else (Resolved None, S calls).

End Geocoding.

(* ================================================================== *)
(** ** Measures used to describe boxes and adjustments *)
(* ================================================================== *)

Module Measures.
Import Geo.
Local Open Scope R_scope.

(** North-south extent of a box in meters, at 111000 m per degree. *)
Definition heightMetersOf (b : Bounds) : R := (north b - south b) * 111000.

(** East-west extent of a box in meters, with the longitude scale taken
    at latitude [latDeg]. *)
Definition widthMetersAt (latDeg : R) (b : Bounds) : R :=
  (east b - west b) * (cos (latDeg * PI / 180) * 111000).

(** The single adjustment that adds the shifts of two adjustments and
    multiplies their scale factors (confidence and reasoning of the
    second). *)
Definition combined (a1 a2 : RefinementAdjustment) : RefinementAdjustment :=
  {| shiftMeters :=
       {| shiftNorth := shiftNorth (shiftMeters a1) + shiftNorth (shiftMeters a2);
          shiftEast := shiftEast (shiftMeters a1) + shiftEast (shiftMeters a2) |};
     scaleFactor := scaleFactor a1 * scaleFactor a2;
     confidence := confidence a2;
     reasoning := reasoning a2 |}.

End Measures.

(* ================================================================== *)
(** ** Sample inputs *)
(* ================================================================== *)

Module Samples.
Import Geo DeepRefine.
Local Open Scope R_scope.

(** A proposal of five kilometers to the north and three to the west,
    with a doubling of the size. *)
Definition farNorthWest : RefinementAdjustment :=
  {| shiftMeters := {| shiftNorth := 5000; shiftEast := -3000 |};
     scaleFactor := 2; confidence := 1 / 2; reasoning := "" |}.

End Samples.

(* ================================================================== *)
(** ** What an encoded polyline denotes *)
(* ================================================================== *)

Module PolylineFormat.
Import Polyline.
Local Open Scope Z_scope.

(** Value of a sequence of 5-bit chunks, least significant chunk first. *)
Fixpoint chunksValue (chunks : list Z) : Z :=
  match chunks with
  | [] => 0
  | c :: rest => c + 32 * chunksValue rest
  end.

(** The 5-bit chunk carried by a character. *)
Definition chunkOf (code : Z) : Z := Z.land (code - 63) 31.

(** Unsigned value carried by a group of characters. *)
Definition groupValue (group : list Z) : Z := chunksValue (List.map chunkOf group).

(** A complete group: characters with the continuation bit set (codes 95
    to 126), then one without it (codes 63 to 94); at most six
    characters, that is 30 bits. *)
Definition completeGroup (group : list Z) : Prop :=
  exists conts last,
    group = conts ++ [last]
    /\ Forall (fun c => 95 <= c <= 126) conts
    /\ 63 <= last <= 94
    /\ (List.length group <= 6)%nat.

(** The points denoted by a sequence of (latitude group, longitude group)
    pairs, starting from the integer coordinates [lat] and [lng]: each
    pair moves the running coordinates by its two signed values. *)
Fixpoint pathFrom (lat lng : Z) (pairs : list (list Z * list Z))
    : list LatLng :=
  match pairs with
  | [] => []
  | (glat, glng) :: rest =>
      let lat' := lat + zigzag (groupValue glat) in
      let lng' := lng + zigzag (groupValue glng) in
      {| Polyline.lat := inject_Z lat' / 100000;
         Polyline.lng := inject_Z lng' / 100000 |}
      :: pathFrom lat' lng' rest
  end.

(** The string made of the groups, in order. *)
Fixpoint flatten (pairs : list (list Z * list Z)) : JsString :=
  match pairs with
  | [] => []
  | (glat, glng) :: rest => glat ++ glng ++ flatten rest
  end.

End PolylineFormat.

(* ================================================================== *)
(** ** Checking well-formedness of groups by computation *)
(* ================================================================== *)

Module PolylineCheck.
Import Polyline PolylineFormat.
Local Open Scope Z_scope.

(** Continuation characters followed by one final character. *)
Fixpoint groupShapeb (group : list Z) : bool :=
  match group with
  | [] => false
  | [last] => (63 <=? last) && (last <=? 94)
  | c :: rest => (95 <=? c) && (c <=? 126) && groupShapeb rest
  end.

Definition completeGroupb (group : list Z) : bool :=
  groupShapeb group && (List.length group <=? 6)%nat.

(** The published example, group by group. *)
Definition fixturePairs : list (list Z * list Z) :=
  [ (codeUnits "_p~iF", codeUnits "~ps|U");
    (codeUnits "_ulL", codeUnits "nnqC");
    (codeUnits "_mqN", codeUnits "vxq`@") ].

End PolylineCheck.

(* ================================================================== *)
(** ** Data URLs ([dataUrlToBase64], [src/index.ts]) *)
(* ================================================================== *)

Module DataUrl.
Import Polyline.
Local Open Scope Z_scope.

(** Line terminators, the characters [.] does not match: LF, CR, U+2028
    and U+2029. *)
Definition isLineTerminator (c : Z) : bool :=
  (c =? 10) || (c =? 13) || (c =? 8232) || (c =? 8233).

(** What is left of [s] after the literal [prefix], if [s] starts with it. *)
Fixpoint stripPrefix (prefix s : JsString) : option JsString :=
  match prefix, s with
  | [], _ => Some s
  | p :: ps, c :: cs => if p =? c then stripPrefix ps cs else None
  | _ :: _, [] => None
  end.

(** The longest prefix free of [sep], and the rest: what a greedy
    [[^sep]*] takes when [sep] has to follow. *)
Fixpoint spanNot (sep : Z) (s : JsString) : JsString * JsString :=
  match s with
  | [] => ([], [])
  | c :: cs =>
      if c =? sep then ([], s)
      else let '(taken, rest) := spanNot sep cs in (c :: taken, rest)
  end.

(** [dataUrl.match(DATA_URL_REGEX)] with
    [DATA_URL_REGEX = /^data:([^;]+);base64,(.+)$/]: the two captured
    groups, or [None] for no match.  The first group stops at the first
    [;] (code 59) because it cannot contain one; the second runs to the
    end of the string and must be free of line terminators. *)
Definition matchDataUrl (dataUrl : JsString) : option (JsString * JsString) :=
  match stripPrefix (codeUnits "data:") dataUrl with
  | None => None
  | Some rest =>
      let '(group1, rest) := spanNot 59 rest in
      match group1 with
      | [] => None
      | _ :: _ =>
          match stripPrefix (codeUnits ";base64,") rest with
          | None => None
          | Some group2 =>
              match group2 with
              | [] => None
              | _ :: _ =>
                  if existsb isLineTerminator group2 then None
                  else Some (group1, group2)
              end
          end
      end
  end.

(** The returned object [{ mimeType, data }]. *)
Record Base64Data : Type := mkBase64Data
  { mimeType : JsString; data : JsString }.

(** [dataUrlToBase64(dataUrl)]; [inl] is the thrown error's message.
    Captured groups of a match are never empty, so the truthiness test
    [match?.[1] && match[2]] fails only when there is no match. *)
Definition dataUrlToBase64 (dataUrl : JsString) : string + Base64Data :=
  match matchDataUrl dataUrl with
  | Some (group1, group2) => inr {| mimeType := group1; data := group2 |}
  | None => inl "Invalid data URL format"%string
  end.

End DataUrl.

(* ================================================================== *)
(** ** Initial positioning: the bounds endpoints of [src/index.ts] and
       the client step that calls them *)
(* ================================================================== *)

Module Positioning.
Import Geo.
Local Open Scope R_scope.

(** Truthiness of a JSON field holding a number: present and not zero. *)
Definition truthyNumber (x : option R) : bool :=
  match x with
  | Some v => if Req_EM_T v 0 then false else true
  | None => false
  end.

(** [x || d] on such a field. *)
Definition orNumber (x : option R) (d : R) : R :=
  match x with
  | Some v => if Req_EM_T v 0 then d else v
  | None => d
  end.

(** Truthiness of a JSON field holding a string: present and not empty. *)
Definition truthyString (s : option string) : bool :=
  match s with
  | Some EmptyString => false
  | Some _ => true
  | None => false
  end.

(** A JSON answer: the body, or an error with its HTTP status. *)
Inductive ApiResponse (A : Type) : Type :=
  | Ok (body : A)
  | Failed (status : Z) (error : string).
Arguments Ok {A} body.
Arguments Failed {A} status error.

(** The [cornerPosition] string as the [switch] of
    [calculateBoundsFromCorner] reads it. *)
Definition cornerOfString (s : string) : CornerPosition :=
  if String.eqb s "northwest" then northwest
  else if String.eqb s "northeast" then northeast
  else if String.eqb s "southwest" then southwest
  else if String.eqb s "southeast" then southeast
  else otherCorner s.

(** Body of a request to either endpoint; [pointLat] and [pointLng] are
    the [lat] and [lng] of [center] or [corner], absent when the object
    or the field is. *)
Record BoundsRequest : Type := mkBoundsRequest
  { pointLat : option R;
    pointLng : option R;
    cornerPosition : option string;
    sizeMeters : option R;
    aspectRatio : option R }.

(** The number in a field already tested to be truthy. *)
Definition numberOf (x : option R) : R :=
  match x with Some v => v | None => 0 end.

Definition stringOf (s : option string) : string :=
  match s with Some v => v | None => EmptyString end.

(** [POST /api/bounds/calculate] *)
Definition boundsCalculate (req : BoundsRequest) : ApiResponse Bounds :=
  if negb (truthyNumber (pointLat req) && truthyNumber (pointLng req)
           && truthyNumber (sizeMeters req))
  then Failed 400 "center (lat, lng) and sizeMeters required"
  else Ok (calculateBounds
             {| lat := numberOf (pointLat req); lng := numberOf (pointLng req) |}
             (numberOf (sizeMeters req))
             (orNumber (aspectRatio req) 1)).

(** [POST /api/bounds/from-corner] *)
Definition boundsFromCorner (req : BoundsRequest) : ApiResponse Bounds :=
  if negb (truthyNumber (pointLat req) && truthyNumber (pointLng req)
           && truthyNumber (sizeMeters req)
           && truthyString (cornerPosition req))
  then Failed 400 "corner (lat, lng), cornerPosition, and sizeMeters required"
  else Ok (calculateBoundsFromCorner
             {| lat := numberOf (pointLat req); lng := numberOf (pointLng req) |}
             (cornerOfString (stringOf (cornerPosition req)))
             (numberOf (sizeMeters req))
             (orNumber (aspectRatio req) 1)).

(** Client, step 4: [Math.max(10, Math.min(500, rawSize))] with
    [rawSize = extracted.estimatedSizeMeters || 100]. *)
Definition clampedSize (estimatedSizeMeters : option R) : R :=
  let rawSize := orNumber estimatedSizeMeters 100 in
  Rmax 10 (Rmin 500 rawSize).

(** Client, step 4: the bounds handed to [setBounds] and
    [setOriginalBounds], that is the [bounds] field of the answer
    ([None] when the answer is an error object, which has none). *)
Definition initialBounds (estimatedSizeMeters : option R)
    (useCornerBased : bool) (corner : option string)
    (geocodeData : LatLng) (pageAspectRatio : R) : option Bounds :=
  let size := clampedSize estimatedSizeMeters in
  let answer :=
    if useCornerBased && truthyString corner
    then boundsFromCorner
           {| pointLat := Some (lat geocodeData);
              pointLng := Some (lng geocodeData);
              cornerPosition := corner;
              sizeMeters := Some size;
              aspectRatio := Some pageAspectRatio |}
    else boundsCalculate
           {| pointLat := Some (lat geocodeData);
              pointLng := Some (lng geocodeData);
              cornerPosition := None;
              sizeMeters := Some size;
              aspectRatio := Some pageAspectRatio |} in
  match answer with
  | Ok bounds => Some bounds
  | Failed _ _ => None
  end.

End Positioning.

(* ================================================================== *)
(** ** Client, step 3: geocoding ([processDocument] in the client
       component) *)
(* ================================================================== *)

Module GeocodeStage.
Import Geo Geocoding Positioning.
Local Open Scope string_scope.

(** The fields of [ExtractedPlanData] that the step reads.  [None] is
    [null] or a missing field. *)
Record ExtractedRoad : Type := mkRoad
  { name : string; direction : string; isPrimary : bool }.

Record ExtractedIntersection : Type := mkIntersection
  { road1 : string; road2 : string; corner : string }.

Record ExtractedPlanData : Type := mkExtracted
  { address : option string;
    city : option string;
    state : option string;
    roads : option (list ExtractedRoad);
    intersections : option (list ExtractedIntersection) }.

(** Body of the answer of both geocoding endpoints. *)
Record GeocodeData : Type := mkGeocodeData
  { geoLat : R; geoLng : R; formattedAddress : string }.

(** The requests the step can send, with their JSON bodies. *)
Inductive ApiRequest : Type :=
  | GeocodeIntersectionRequest (road1 road2 city state : string)
  | GeocodeRequest (address : string)
  | RoadGeometryRequest (roadName : string) (pointLat pointLng : R)
      (city : option string) (state : string) (radiusMeters : R).

(** One highlighted road: name, points, index into [roadColors]. *)
Record RoadPolylineData (Points : Type) : Type := mkRoadPolyline
  { roadName : string; points : Points; color : nat }.
Arguments mkRoadPolyline {Points} roadName points color.

(** What the step leaves in its variables when it does not throw. *)
Record StageResult (Points : Type) : Type := mkStageResult
  { geocodeData : GeocodeData;
    useCornerBased : bool;
    cornerPosition : option string;
    roadPolylines : list (RoadPolylineData Points) }.
Arguments mkStageResult {Points} geocodeData useCornerBased cornerPosition
  roadPolylines.

(** [s || ""] *)
Definition orEmpty (s : option string) : string :=
  match s with Some v => v | None => "" end.

(** [[a, b, c].filter(Boolean)] on strings that may be null. *)
Definition filterBoolean (parts : list (option string)) : list string :=
  flat_map (fun p => if truthyString p then [orEmpty p] else []) parts.

(** [[...new Set(names)]]: first occurrences, in order. *)
Fixpoint dedupe (seen names : list string) : list string :=
  match names with
  | [] => []
  | n :: rest =>
      if existsb (String.eqb n) seen then dedupe seen rest
      else n :: dedupe (n :: seen) rest
  end.

Definition isCorner (s : string) : bool :=
  String.eqb s "northwest" || String.eqb s "northeast"
  || String.eqb s "southwest" || String.eqb s "southeast".

Section Client.

(** State of the outside world. *)
Variable World : Type.
(** Road points as the server sends them. *)
Variable Points : Type.
(** [fetch] of a geocoding endpoint followed by [res.json()]: [Some] for
    [res.ok], [None] otherwise; rejects on a network error. *)
Variable postGeocode :
  ApiRequest -> World -> Outcome (option GeocodeData) * World.
(** The same for [/api/roads/geometry]. *)
Variable postRoadGeometry :
  ApiRequest -> World -> Outcome (option Points) * World.

(** Asynchronous computations with the list of requests sent, in order. *)
Definition Task (A : Type) : Type :=
  World -> Outcome A * World * list ApiRequest.

Definition done {A} (a : A) : Task A := fun w => (Resolved a, w, []).

Definition throw {A} (message : string) : Task A :=
  fun w => (Rejected message, w, []).

Definition andThen {A B} (m : Task A) (f : A -> Task B) : Task B :=
  fun w =>
    match m w with
    | (Resolved a, w', sent) =>
        let '(r, w'', sent') := f a w' in (r, w'', (sent ++ sent')%list)
    | (Rejected e, w', sent) => (Rejected e, w', sent)
    end.

Definition awaitGeocode (req : ApiRequest) : Task (option GeocodeData) :=
  fun w => let '(r, w') := postGeocode req w in (r, w', [req]).

(** A road request inside [try { ... } catch { return null }]. *)
Definition tryRoadGeometry (req : ApiRequest) : Task (option Points) :=
  fun w =>
    match postRoadGeometry req w with
    | (Resolved r, w') => (Resolved r, w', [req])
    | (Rejected _, w') => (Resolved None, w', [req])
    end.

(** The road requests of [allRoadNames.map(...)] and the filtering of
    their results; requests are sent in the order of the names. *)
Fixpoint fetchRoads (names : list string) (index : nat)
    (data : GeocodeData) (extracted : ExtractedPlanData)
    : Task (list (RoadPolylineData Points)) :=
  match names with
  | [] => done []
  | roadName :: rest =>
      andThen
        (tryRoadGeometry
           (RoadGeometryRequest roadName (geoLat data) (geoLng data)
              (city extracted) (orEmpty (state extracted)) 1000))
        (fun answer =>
           andThen (fetchRoads rest (S index) data extracted)
             (fun others =>
                done (match answer with
                      | Some pts =>
                          mkRoadPolyline roadName pts (index mod 8) :: others
                      | None => others
                      end)))
  end.

(** The intersection attempt: what it leaves in [geocodeData],
    [useCornerBased], [cornerPosition] and the road polylines. *)
Definition tryIntersection (extracted : ExtractedPlanData)
    : Task (option GeocodeData * bool * option string
            * list (RoadPolylineData Points)) :=
  let intersections :=
    match intersections extracted with Some l => l | None => [] end in
  match hd_error intersections with
  | Some firstIntersection =>
      if negb (String.eqb (corner firstIntersection) "unknown")
         && truthyString (city extracted)
      then
        andThen
          (awaitGeocode
             (GeocodeIntersectionRequest
                (road1 firstIntersection) (road2 firstIntersection)
                (orEmpty (city extracted)) (orEmpty (state extracted))))
          (fun answer =>
             match answer with
             | Some intersectionData =>
                 let cornerPosition :=
                   if isCorner (corner firstIntersection)
                   then Some (corner firstIntersection) else None in
                 let allRoadNames :=
                   dedupe []
                     (match roads extracted with
                      | Some l => List.map name l
                      | None => []
                      end) in
                 andThen (fetchRoads allRoadNames 0 intersectionData extracted)
                   (fun validRoads =>
                      done (Some intersectionData, true, cornerPosition,
                            validRoads))
             | None => done (None, false, None, [])
             end)
      else done (None, false, None, [])
  | None => done (None, false, None, [])
  end.

(** The address the fallback geocodes. *)
Definition fullAddressOf (extracted : ExtractedPlanData) : string :=
  String.concat ", "
    (filterBoolean [address extracted; city extracted; state extracted]).

(** The last resort of the source: the primary road, or the first one,
    with the city. *)
Definition tryRoadAddress (extracted : ExtractedPlanData)
    : Task (option GeocodeData) :=
  let roads := match roads extracted with Some l => l | None => [] end in
  match hd_error roads with
  | Some firstRoad =>
      if truthyString (city extracted) then
        let primaryRoad :=
          match find isPrimary roads with
          | Some r => r
          | None => firstRoad
          end in
        let fallbackAddress :=
          name primaryRoad ++ ", " ++ orEmpty (city extracted) ++ ", "
          ++ orEmpty (state extracted) in
        awaitGeocode (GeocodeRequest fallbackAddress)
      else done None
  | None => done None
  end.

(** Step 3 of [processDocument]. *)
Definition geocodeStage (extracted : ExtractedPlanData)
    : Task (StageResult Points) :=
  andThen (tryIntersection extracted)
    (fun '(geocodeData, useCornerBased, cornerPosition, validRoads) =>
       match geocodeData with
       | Some data =>
           done (mkStageResult data useCornerBased cornerPosition validRoads)
       | None =>
           let fullAddress := fullAddressOf extracted in
           if negb (String.eqb fullAddress "") then
             andThen (awaitGeocode (GeocodeRequest fullAddress))
               (fun answer =>
                  match answer with
                  | None => throw ("Geocoding failed for: " ++ fullAddress)
                  | Some data =>
                      done (mkStageResult data useCornerBased cornerPosition
                              validRoads)
                  end)
           else
             andThen (tryRoadAddress extracted)
               (fun answer =>
                  match answer with
                  | None => throw "No address or roads found to geocode"
                  | Some data =>
                      done (mkStageResult data useCornerBased cornerPosition
                              validRoads)
                  end)
       end).

End Client.

End GeocodeStage.

(* ================================================================== *)
(** ** A sample run of the geocoding step *)
(* ================================================================== *)

Module StageSamples.
Import Geocoding GeocodeStage.
Local Open Scope string_scope.

(** A plan on a corner lot in Sun City. *)
Definition sunCity : ExtractedPlanData :=
  {| address := Some "13550 N 99th Ave";
     city := Some "Sun City";
     state := Some "AZ";
     roads := Some [ {| name := "99th Ave"; direction := "west";
                        isPrimary := true |};
                     {| name := "Thunderbird Blvd"; direction := "south";
                        isPrimary := false |};
                     {| name := "99th Ave"; direction := "west";
                        isPrimary := false |} ];
     intersections :=
       Some [ {| road1 := "99th Ave"; road2 := "Thunderbird Blvd";
                 corner := "southwest" |} ] |}.

(** The same plan with no address, city or state read from it. *)
Definition roadsOnly : ExtractedPlanData :=
  {| address := None; city := Some ""; state := None;
     roads := roads sunCity; intersections := intersections sunCity |}.

Definition sunCityPoint : GeocodeData :=
  {| geoLat := 33623 / 1000; geoLng := -112283 / 1000;
     formattedAddress := "13550 N 99th Ave, Sun City, AZ 85351, USA" |}.

(** A geocoder that knows street addresses only; the world counts the
    requests answered. *)
Definition addressOnly (req : ApiRequest) (served : nat)
    : Outcome (option GeocodeData) * nat :=
  match req with
  | GeocodeRequest "13550 N 99th Ave, Sun City, AZ" =>
      (Resolved (Some sunCityPoint), S served)
  | _ => (Resolved None, S served)
  end.

(** A geocoder that knows intersections only. *)
Definition intersectionOnly (req : ApiRequest) (served : nat)
    : Outcome (option GeocodeData) * nat :=
  match req with
  | GeocodeIntersectionRequest _ _ _ _ =>
      (Resolved (Some sunCityPoint), S served)
  | _ => (Resolved None, S served)
  end.

(** A road service that is down. *)
Definition roadsDown (req : ApiRequest) (served : nat)
    : Outcome (option (list (R * R))) * nat :=
  (Rejected "fetch failed", S served).

End StageSamples.

(* ================================================================== *)
(** ** Road search segment ([getRoadGeometryBySearch] in [src/index.ts],
       [getRoadGeometry] in [src/server/lib/roads.ts]) *)
(* ================================================================== *)

Module RoadSearch.
Import Geo.
Local Open Scope R_scope.

(** The two ends of the segment sent to the directions service, before
    they are printed as ["lat,lng"] strings.  [isNorthSouth] is the
    outcome of the test on the road's name. *)
Definition searchEndpoints (nearPoint : LatLng) (searchRadiusMeters : R)
    (isNorthSouth : bool) : LatLng * LatLng :=
  let latRadians := (lat nearPoint * PI) / 180 in
  let metersPerLngDeg := cos latRadians * 111000 in
  let latOffset := searchRadiusMeters / METERS_PER_LAT_DEG in
  let lngOffset := searchRadiusMeters / metersPerLngDeg in
  let origin :=
    if isNorthSouth
    then {| lat := lat nearPoint + latOffset; lng := lng nearPoint |}
    else {| lat := lat nearPoint; lng := lng nearPoint - lngOffset |} in
  let destination :=
    if isNorthSouth
    then {| lat := lat nearPoint - latOffset; lng := lng nearPoint |}
    else {| lat := lat nearPoint; lng := lng nearPoint + lngOffset |} in
  (origin, destination).

End RoadSearch.

(* ================================================================== *)
(** ** The intersection route ([/api/geocode/intersection] in
       [src/index.ts], [handleGeocodeIntersection] in
       [src/server/routes/geocode.ts] under [withErrorHandling]) *)
(* ================================================================== *)

Module GeocodeRoute.
Import Geocoding Positioning.
Local Open Scope string_scope.

Section Route.

Variable World : Type.
Variable GeocodingResult : Type.
Variable geocodeAddress :
  string -> World -> Outcome (option GeocodingResult) * World.

(** [try { ... } catch (error) { return 500 }] around a handler. *)
Definition withErrorHandling {A}
    (handler : Async World (ApiResponse A)) : Async World (ApiResponse A) :=
  fun w =>
    match handler w with
    | (Rejected message, w', queries) =>
        (Resolved (Failed 500 message), w', queries)
    | answered => answered
    end.

(** The route on the JSON body [{ road1, road2, city, state }]. *)
Definition handleGeocodeIntersection (road1 road2 city state : option string)
    : Async World (ApiResponse GeocodingResult) :=
  withErrorHandling
    (if negb (truthyString road1 && truthyString road2 && truthyString city)
     then ret (Failed 400 "road1, road2, and city required")
     else
       bind
         (geocodeIntersection World GeocodingResult geocodeAddress
            (stringOf road1) (stringOf road2) (stringOf city)
            (stringOf state))
         (fun result =>
            match result with
            | None =>
                ret (Failed 404
                       ("Could not geocode intersection: " ++ stringOf road1
                        ++ " & " ++ stringOf road2))
            | Some r => ret (Ok r)
            end)).

End Route.

(** A geocoder for examples: the world counts the calls made; the first
    call finds nothing and every later one fails as [fetch] does when the
    connection is lost. *)
Definition failingAfterFirst (address : string) (calls : nat)
    : Outcome (option (Z * Z)) * nat :=
  match calls with
  | O => (Resolved None, S calls)
  | S _ => (Rejected "fetch failed", S calls)
  end.

End GeocodeRoute.

(* ================================================================== *)
(** ** Where a sequence of groups leaves the running coordinates *)
(* ================================================================== *)

Module PolylineEnd.
Import Polyline PolylineFormat.
Local Open Scope Z_scope.

(** The integer coordinates reached after the given pairs of groups. *)
Fixpoint endFrom (lat lng : Z) (pairs : list (list Z * list Z)) : Z * Z :=
  match pairs with
  | [] => (lat, lng)
  | (glat, glng) :: rest =>
      endFrom (lat + zigzag (groupValue glat))
        (lng + zigzag (groupValue glng)) rest
  end.

End PolylineEnd.

(* ================================================================== *)
(** ** The same geometry in double precision

    The three functions of [Geo] once more, with the IEEE 754 binary64
    operations JavaScript numbers have, to show where rounding departs
    from real arithmetic.  [Math.cos] is not part of the repository: it is
    an argument of each function. *)
(* ================================================================== *)

Module Doubles.
Import PrimFloat.
Local Open Scope float_scope.

Record Bounds : Type := mkBounds
  { north : float; south : float; east : float; west : float }.

Record LatLng : Type := mkLatLng { lat : float; lng : float }.

Record RefinementAdjustment : Type := mkAdjustment
  { shiftNorth : float; shiftEast : float; scaleFactor : float }.

(** The four corner names, and any other string ([default] branch). *)
Inductive CornerPosition : Type :=
  | northwest | northeast | southwest | southeast | otherCorner.

(** [Math.PI] *)
Definition Math_PI : float := 0x1.921fb54442d18p+1.

Definition d0_001 : float := 0x1.0624dd2f1a9fcp-10.

Section WithCosine.

Variable Math_cos : float -> float.

(** [calculateBounds(center, sizeMeters, aspectRatio)] *)
Definition calculateBounds (center : LatLng) (sizeMeters aspectRatio : float)
    : Bounds :=
  let latRadians := (lat center * Math_PI) / 180 in
  let metersPerLngDeg := Math_cos latRadians * 111000 in
  let widthMeters :=
    if 1 <=? aspectRatio then sizeMeters else sizeMeters * aspectRatio in
  let heightMeters :=
    if 1 <=? aspectRatio then sizeMeters / aspectRatio else sizeMeters in
  let latDelta := heightMeters / 111000 / 2 in
  let lngDelta := widthMeters / metersPerLngDeg / 2 in
  {| north := lat center + latDelta;
     south := lat center - latDelta;
     east := lng center + lngDelta;
     west := lng center - lngDelta |}.

(** [calculateBoundsFromCorner(corner, cornerPosition, sizeMeters,
    aspectRatio)] *)
Definition calculateBoundsFromCorner (corner : LatLng)
    (cornerPosition : CornerPosition) (sizeMeters aspectRatio : float)
    : Bounds :=
  let latRadians := (lat corner * Math_PI) / 180 in
  let metersPerLngDeg := Math_cos latRadians * 111000 in
  let widthMeters :=
    if 1 <=? aspectRatio then sizeMeters else sizeMeters * aspectRatio in
  let heightMeters :=
    if 1 <=? aspectRatio then sizeMeters / aspectRatio else sizeMeters in
  let latDelta := heightMeters / 111000 in
  let lngDelta := widthMeters / metersPerLngDeg in
  match cornerPosition with
  | northwest =>
      {| north := lat corner; south := lat corner - latDelta;
         west := lng corner; east := lng corner + lngDelta |}
  | northeast =>
      {| north := lat corner; south := lat corner - latDelta;
         east := lng corner; west := lng corner - lngDelta |}
  | southwest =>
      {| south := lat corner; north := lat corner + latDelta;
         west := lng corner; east := lng corner + lngDelta |}
  | southeast =>
      {| south := lat corner; north := lat corner + latDelta;
         east := lng corner; west := lng corner - lngDelta |}
  | otherCorner =>
      {| north := lat corner; south := lat corner - latDelta;
         west := lng corner; east := lng corner + lngDelta |}
  end.

(** [applyAdjustment(currentBounds, adjustment)] *)
Definition applyAdjustment (currentBounds : Bounds)
    (adjustment : RefinementAdjustment) : Bounds :=
  let currentCenterLat := (north currentBounds + south currentBounds) / 2 in
  let currentCenterLng := (east currentBounds + west currentBounds) / 2 in
  let latRadians := (currentCenterLat * Math_PI) / 180 in
  let metersPerLngDeg := Math_cos latRadians * 111000 in
  let latShift := shiftNorth adjustment / 111000 in
  let lngShift := shiftEast adjustment / metersPerLngDeg in
  let newCenterLat := currentCenterLat + latShift in
  let newCenterLng := currentCenterLng + lngShift in
  let currentLatSpan := north currentBounds - south currentBounds in
  let currentLngSpan := east currentBounds - west currentBounds in
  let newLatSpan := currentLatSpan * scaleFactor adjustment in
  let newLngSpan := currentLngSpan * scaleFactor adjustment in
  {| north := newCenterLat + newLatSpan / 2;
     south := newCenterLat - newLatSpan / 2;
     east := newCenterLng + newLngSpan / 2;
     west := newCenterLng - newLngSpan / 2 |}.

(** [(north - south) * 111000] and
    [(east - west) * cos(lat * pi / 180) * 111000], computed as written. *)
Definition heightMeters (b : Bounds) : float := (north b - south b) * 111000.

Definition widthMetersAt (latDeg : float) (b : Bounds) : float :=
  (east b - west b) * Math_cos (latDeg * Math_PI / 180) * 111000.

End WithCosine.

(** [north > south] and [east > west], as a test on doubles. *)
Definition validBounds (b : Bounds) : bool :=
  (south b <? north b) && (west b <? east b).

(** [Math.cos] on the equator: the language fixes [Math.cos(0) = 1]
    exactly.  Other arguments are not needed below and are not modelled
    (NaN). *)
Definition cosOfZero (x : float) : float := if x =? 0 then 1 else nan.

(** A point on the equator, a box around it, and an adjustment that only
    scales. *)
Definition equatorPoint : LatLng := {| lat := 0; lng := 100 |}.

Definition equatorBox : Bounds :=
  {| north := 1; south := -1; east := 101; west := 100 |}.




End Doubles.

(* ================================================================== *)
(** * Properties *)
(* ================================================================== *)

(** ** Comparisons and trigonometry *)

Section RealFacts.
Import Geo.
Local Open Scope R_scope.

Lemma Rgeb_true (x y : R) : Rgeb x y = true <-> y <= x.
Proof. unfold Rgeb. destruct (Rle_dec y x); split; intros; try easy; lra. Qed.

Lemma Rgeb_false (x y : R) : Rgeb x y = false <-> x < y.
Proof. unfold Rgeb. destruct (Rle_dec y x); split; intros; try easy; lra. Qed.

Lemma Rltb_true (x y : R) : Rltb x y = true <-> x < y.
Proof. unfold Rltb. destruct (Rlt_dec x y); split; intros; try easy; lra. Qed.

Lemma Rltb_false (x y : R) : Rltb x y = false <-> y <= x.
Proof. unfold Rltb. destruct (Rlt_dec x y); split; intros; try easy; lra. Qed.

Lemma Rgtb_true (x y : R) : Rgtb x y = true <-> x > y.
Proof. unfold Rgtb. rewrite Rltb_true. lra. Qed.

Lemma Rgtb_false (x y : R) : Rgtb x y = false <-> x <= y.
Proof. unfold Rgtb. rewrite Rltb_false. lra. Qed.

(** A zero numerator gives zero whatever the divisor. *)
Lemma zero_div (x : R) : 0 / x = 0.
Proof. unfold Rdiv. apply Rmult_0_l. Qed.

(** The longitude scale is positive strictly between the poles. *)
Lemma cos_deg_pos (d : R) : -90 < d < 90 -> 0 < cos (d * PI / 180).
Proof.
  intros [Hlo Hhi]. pose proof PI_RGT_0 as Hpi.
  apply cos_gt_0; nra.
Qed.

Lemma widthOf_pos (s a : R) : s > 0 -> a > 0 -> widthOf s a > 0.
Proof.
  intros Hs Ha. unfold widthOf. destruct (Rgeb a 1); [lra|].
  apply Rmult_lt_0_compat; lra.
Qed.

Lemma heightOf_pos (s a : R) : s > 0 -> a > 0 -> heightOf s a > 0.
Proof.
  intros Hs Ha. unfold heightOf. destruct (Rgeb a 1); [|lra].
  apply Rdiv_lt_0_compat; lra.
Qed.

End RealFacts.

(** ** Bounds calculators and adjustment applier *)

Section BoundsFacts.
Import Geo.
Local Open Scope R_scope.

(** The calculators written with [widthOf] and [heightOf]. *)
Lemma calculateBounds_unfold (c : LatLng) (s a : R) :
  calculateBounds c s a =
  {| north := lat c + heightOf s a / 111000 / 2;
     south := lat c - heightOf s a / 111000 / 2;
     east := lng c + widthOf s a / (cos (lat c * PI / 180) * 111000) / 2;
     west := lng c - widthOf s a / (cos (lat c * PI / 180) * 111000) / 2 |}.
Proof. reflexivity. Qed.

Lemma dimensions_cases (s a w h : R) :
  (1 <= a /\ w = s /\ h = s / a) \/ (a < 1 /\ h = s /\ w = s * a) ->
  widthOf s a = w /\ heightOf s a = h.
Proof.
  unfold widthOf, heightOf.
  intros [(Ha & -> & ->) | (Ha & -> & ->)].
  - apply Rgeb_true in Ha. now rewrite Ha.
  - apply Rgeb_false in Ha. now rewrite Ha.
Qed.

(** C2 -- corner anchoring.  [calculateBoundsFromCorner] returns, for each
    of the four corner positions, bounds whose named corner is the input
    point itself and whose opposite corner lies [heightMeters / 111000]
    degrees of latitude and [widthMeters / (cos(corner.lat * pi / 180) *
    111000)] degrees of longitude away, where width and height are
    [sizeMeters] and [sizeMeters / aspectRatio] when [aspectRatio >= 1]
    and [sizeMeters * aspectRatio] and [sizeMeters] otherwise. *)
Theorem calculateBoundsFromCorner_anchored
    (corner : LatLng) (sizeMeters aspectRatio widthMeters heightMeters : R) :
  sizeMeters > 0 -> aspectRatio > 0 ->
  (1 <= aspectRatio /\ widthMeters = sizeMeters
     /\ heightMeters = sizeMeters / aspectRatio)
  \/ (aspectRatio < 1 /\ heightMeters = sizeMeters
     /\ widthMeters = sizeMeters * aspectRatio) ->
  let dLat := heightMeters / 111000 in
  let dLng := widthMeters / (cos (lat corner * PI / 180) * 111000) in
  calculateBoundsFromCorner corner northwest sizeMeters aspectRatio
    = {| north := lat corner; west := lng corner;
         south := lat corner - dLat; east := lng corner + dLng |}
  /\ calculateBoundsFromCorner corner northeast sizeMeters aspectRatio
    = {| north := lat corner; east := lng corner;
         south := lat corner - dLat; west := lng corner - dLng |}
  /\ calculateBoundsFromCorner corner southwest sizeMeters aspectRatio
    = {| south := lat corner; west := lng corner;
         north := lat corner + dLat; east := lng corner + dLng |}
  /\ calculateBoundsFromCorner corner southeast sizeMeters aspectRatio
    = {| south := lat corner; east := lng corner;
         north := lat corner + dLat; west := lng corner - dLng |}.
Proof.
  intros _ _ Hdim dLat dLng.
  destruct (dimensions_cases _ _ _ _ Hdim) as [Hw Hh].
  unfold widthOf in Hw. unfold heightOf in Hh.
  subst dLat dLng.
  unfold calculateBoundsFromCorner, METERS_PER_LAT_DEG.
  cbv zeta. rewrite Hw, Hh. repeat split.
Qed.

Lemma calculateBoundsFromCorner_anchored_witness :
  calculateBoundsFromCorner {| lat := 0; lng := 0 |} northwest 100 2
    = {| north := 0; west := 0;
         south := 0 - 100 / 2 / 111000;
         east := 0 + 100 / (cos (0 * PI / 180) * 111000) |}.
Proof.
  apply (calculateBoundsFromCorner_anchored
           {| lat := 0; lng := 0 |} 100 2 100 (100 / 2)).
  - lra.
  - lra.
  - left. repeat split; lra.
Defined.

(** C3 -- the null adjustment.  With zero shift on both axes and a scale
    factor of one, [applyAdjustment] returns the bounds it was given
    (in real arithmetic). *)
Theorem applyAdjustment_null (b : Bounds) (adj : RefinementAdjustment) :
  shiftNorth (shiftMeters adj) = 0 ->
  shiftEast (shiftMeters adj) = 0 ->
  scaleFactor adj = 1 ->
  applyAdjustment b adj = b.
Proof.
  intros Hn He Hs. destruct b as [n s e w].
  unfold applyAdjustment. cbn [north south east west lat lng].
  rewrite Hn, He, Hs, !zero_div. f_equal; lra.
Qed.

Lemma applyAdjustment_null_witness :
  applyAdjustment
    {| north := 34; south := 33; east := -112; west := -113 |}
    {| shiftMeters := {| shiftNorth := 0; shiftEast := 0 |};
       scaleFactor := 1; confidence := 1 / 2; reasoning := "" |}
  = {| north := 34; south := 33; east := -112; west := -113 |}.
Proof. apply applyAdjustment_null; reflexivity. Defined.

(** Spans of the three producers of bounds. *)
Lemma calculateBounds_spans (c : LatLng) (s a : R) :
  let b := calculateBounds c s a in
  north b - south b = heightOf s a / 111000
  /\ east b - west b = widthOf s a / (cos (lat c * PI / 180) * 111000).
Proof. rewrite calculateBounds_unfold. cbn. split; lra. Qed.

Lemma calculateBoundsFromCorner_spans
    (c : LatLng) (p : CornerPosition) (s a : R) :
  let b := calculateBoundsFromCorner c p s a in
  north b - south b = heightOf s a / 111000
  /\ east b - west b = widthOf s a / (cos (lat c * PI / 180) * 111000).
Proof.
  unfold calculateBoundsFromCorner, heightOf, widthOf, METERS_PER_LAT_DEG.
  destruct p; cbn; split; lra.
Qed.

Lemma applyAdjustment_spans (b : Bounds) (adj : RefinementAdjustment) :
  let b' := applyAdjustment b adj in
  north b' - south b' = (north b - south b) * scaleFactor adj
  /\ east b' - west b' = (east b - west b) * scaleFactor adj.
Proof. unfold applyAdjustment. cbn. split; lra. Qed.

Lemma degrees_pos (meters latDeg : R) :
  meters > 0 -> -90 < latDeg < 90 ->
  meters / 111000 > 0 /\ meters / (cos (latDeg * PI / 180) * 111000) > 0.
Proof.
  intros Hm Hlat. pose proof (cos_deg_pos _ Hlat) as Hcos.
  split; apply Rdiv_lt_0_compat; lra.
Qed.





End BoundsFacts.

(** ** Deep refinement *)

Section DeepRefineFacts.
Import Geo DeepRefine.
Local Open Scope R_scope.

Lemma Math_sign_cap (p cap : R) :
  0 <= cap -> Rabs p > cap -> Rabs (Math_sign p * cap) = cap.
Proof.
  intros Hcap Hp. unfold Math_sign.
  destruct (Rltb 0 p) eqn:Hpos.
  - rewrite Rmult_1_l. now apply Rabs_pos_eq.
  - destruct (Rltb p 0) eqn:Hneg.
    + replace (-1 * cap) with (- cap) by lra.
      rewrite Rabs_Ropp. now apply Rabs_pos_eq.
    + apply Rltb_false in Hpos, Hneg.
      assert (p = 0) by lra. subst p. rewrite Rabs_R0 in Hp. lra.
Qed.

(** One axis: whatever the current offset and the proposed shift, the
    offset reached with the clamped shift is within the cap. *)
Lemma clampShift_within (cur shift cap : R) :
  0 <= cap -> Rabs (cur + clampShift cur shift cap) <= cap.
Proof.
  intros Hcap. unfold clampShift, Math_abs.
  destruct (Rgtb (Rabs (cur + shift)) cap) eqn:Hgt.
  - apply Rgtb_true in Hgt.
    replace (cur + (Math_sign (cur + shift) * cap - cur))
      with (Math_sign (cur + shift) * cap) by lra.
    rewrite Math_sign_cap; lra.
  - now apply Rgtb_false in Hgt.
Qed.

(** A proposed offset within the cap is left alone. *)
Lemma clampShift_id (cur shift cap : R) :
  Rabs (cur + shift) <= cap -> clampShift cur shift cap = shift.
Proof.
  intros H. unfold clampShift, Math_abs.
  apply Rgtb_false in H. now rewrite H.
Qed.

(** The adjustment after the clamping block, field by field. *)
Lemma clampToOriginal_fields (cur orig : Bounds) (cap : R)
    (adj : RefinementAdjustment) :
  let adj' := fst (clampToOriginal cur orig cap adj) in
  shiftNorth (shiftMeters adj')
    = clampShift (offsetNorth (centerOf orig) (centerOf cur))
        (shiftNorth (shiftMeters adj)) cap
  /\ shiftEast (shiftMeters adj')
    = clampShift (offsetEast (centerOf orig) (centerOf cur))
        (shiftEast (shiftMeters adj)) cap
  /\ scaleFactor adj' = scaleFactor adj
  /\ confidence adj' = confidence adj.
Proof.
  unfold clampToOriginal, clampShift, offsetNorth, offsetEast, centerOf.
  cbn [lat lng].
  repeat match goal with
         | |- context [Rgtb ?a ?b] => destruct (Rgtb a b)
         end; cbn; repeat split.
Qed.

(** The flag is raised exactly when a proposed offset is beyond the cap. *)
Lemma clampToOriginal_flag (cur orig : Bounds) (cap : R)
    (adj : RefinementAdjustment) :
  snd (clampToOriginal cur orig cap adj)
  = Rgtb (Math_abs (offsetNorth (centerOf orig) (centerOf cur)
                    + shiftNorth (shiftMeters adj))) cap
    || Rgtb (Math_abs (offsetEast (centerOf orig) (centerOf cur)
                       + shiftEast (shiftMeters adj))) cap.
Proof.
  unfold clampToOriginal, offsetNorth, offsetEast, centerOf.
  cbn [lat lng].
  repeat match goal with
         | |- context [Rgtb ?a ?b] => destruct (Rgtb a b)
         end; reflexivity.
Qed.

(** Center of the adjusted bounds: the scale factor leaves it alone. *)
Lemma applyAdjustment_center (b : Bounds) (adj : RefinementAdjustment) :
  lat (centerOf (applyAdjustment b adj))
    = lat (centerOf b) + shiftNorth (shiftMeters adj) / 111000
  /\ lng (centerOf (applyAdjustment b adj))
    = lng (centerOf b)
      + shiftEast (shiftMeters adj)
        / (cos (lat (centerOf b) * PI / 180) * 111000).
Proof. unfold applyAdjustment, centerOf. cbn. split; lra. Qed.

(** Offsets of the adjusted center, the east one at the latitude where
    the shift was converted to degrees. *)
Lemma applyAdjustment_offsets (orig b : Bounds) (adj : RefinementAdjustment) :
  cos (lat (centerOf b) * PI / 180) <> 0 ->
  offsetNorth (centerOf orig) (centerOf (applyAdjustment b adj))
    = offsetNorth (centerOf orig) (centerOf b) + shiftNorth (shiftMeters adj)
  /\ offsetEastAt (lat (centerOf b)) (centerOf orig)
       (centerOf (applyAdjustment b adj))
    = offsetEast (centerOf orig) (centerOf b) + shiftEast (shiftMeters adj).
Proof.
  intros Hcos. destruct (applyAdjustment_center b adj) as [Hlat Hlng].
  unfold offsetNorth, offsetEastAt, offsetEast. rewrite Hlat, Hlng.
  split; field. exact Hcos.
Qed.

(** The event for a parsed adjustment when [originalBounds] is given. *)
Lemma deepRefineComplete_clamped (req : Request) (orig : Bounds)
    (adj : RefinementAdjustment) :
  originalBounds req = Some orig ->
  let adj' := fst (clampToOriginal (currentBounds req) orig (capOf req) adj) in
  adjustment (deepRefineComplete req (Some adj)) = Some adj'
  /\ newBounds (deepRefineComplete req (Some adj))
     = Some (applyAdjustment (currentBounds req) adj')
  /\ boundsClamped (deepRefineComplete req (Some adj))
     = snd (clampToOriginal (currentBounds req) orig (capOf req) adj).
Proof.
  intros Horig. unfold deepRefineComplete, capOf. rewrite Horig.
  destruct (clampToOriginal _ _ _ _). repeat split.
Qed.

(** North offset of the adjusted center, at any latitude. *)
Lemma applyAdjustment_offset_north (orig b : Bounds)
    (adj : RefinementAdjustment) :
  offsetNorth (centerOf orig) (centerOf (applyAdjustment b adj))
  = offsetNorth (centerOf orig) (centerOf b) + shiftNorth (shiftMeters adj).
Proof.
  destruct (applyAdjustment_center b adj) as [Hlat _].
  unfold offsetNorth. rewrite Hlat. field.
Qed.

(** One iteration keeps the center within the cap, the east offset being
    taken at the latitude of the bounds the iteration started from.
    Where the cosine of that latitude is zero, so is the east offset. *)
Lemma deepRefineComplete_within (req : Request) (orig nb : Bounds)
    (adj : RefinementAdjustment) :
  originalBounds req = Some orig ->
  newBounds (deepRefineComplete req (Some adj)) = Some nb ->
  0 <= capOf req ->
  withinCapAt (lat (centerOf (currentBounds req))) orig nb (capOf req).
Proof.
  intros Horig Hnb Hcap.
  destruct (deepRefineComplete_clamped req orig adj Horig) as (_ & Hnew & _).
  cbv zeta in Hnew. rewrite Hnew in Hnb. injection Hnb as <-.
  destruct (clampToOriginal_fields (currentBounds req) orig (capOf req) adj)
    as (Hn & He & _).
  cbv zeta in Hn, He.
  unfold withinCapAt. split.
  - rewrite applyAdjustment_offset_north, Hn. now apply clampShift_within.
  - destruct (Req_EM_T (cos (lat (centerOf (currentBounds req)) * PI / 180)) 0)
      as [Hzero | Hcos].
    + unfold offsetEastAt. rewrite Hzero, Rmult_0_r, Rabs_R0. exact Hcap.
    + destruct (applyAdjustment_offsets orig (currentBounds req)
                  (fst (clampToOriginal (currentBounds req) orig
                          (capOf req) adj)) Hcos) as [_ Hoe].
      rewrite Hoe, He. now apply clampShift_within.
Qed.

(** The cap along a whole run of the client loop. *)
Lemma deepRefineLoop_within
    (ai : nat -> Bounds -> option RefinementAdjustment)
    (orig : Bounds) (cap : R) :
  0 <= cap ->
  forall (remaining it : nat) (bounds : Bounds),
    Forall (fun step =>
              forall nb, newBounds (snd step) = Some nb ->
                withinCapAt (lat (centerOf (fst step))) orig nb cap)
      (deepRefineLoop ai (Some orig) cap remaining it bounds).
Proof.
  intros Hcap. induction remaining as [|remaining IH];
    intros it bounds; cbn [deepRefineLoop]; [constructor|].
  set (req := {| currentBounds := bounds; originalBounds := Some orig;
                 maxShiftMeters := Some cap |}).
  constructor.
  - intros nb Hnb. cbn [fst snd] in *.
    destruct (ai (S it) bounds) as [adj|]; [|discriminate].
    now apply (deepRefineComplete_within req orig nb adj).
  - destruct (adjustment (deepRefineComplete req (ai (S it) bounds)));
      [|constructor].
    destruct (truthy _); [|constructor].
    apply IH.
Qed.

(** Nothing is clamped for [southEast200] at [boundsAt60]: the
    proposed offsets are exactly on the cap. *)
Lemma no_clamp_at60 :
  clampToOriginal boundsAt60 boundsAt60 200 southEast200
  = (southEast200, false).
Proof.
  unfold clampToOriginal, Math_abs.
  cbn [lat lng north south east west boundsAt60 southEast200
       shiftMeters shiftNorth shiftEast].
  replace ((61 + 59) / 2 - (61 + 59) / 2) with 0 by lra.
  replace ((1 + -1) / 2 - (1 + -1) / 2) with 0 by lra.
  rewrite !Rmult_0_l, !Rplus_0_l.
  assert (H1 : Rgtb (Rabs (-200)) 200 = false).
  { apply Rgtb_false. unfold Rabs. destruct (Rcase_abs _); lra. }
  assert (H2 : Rgtb (Rabs 200) 200 = false).
  { apply Rgtb_false. rewrite Rabs_pos_eq; lra. }
  now rewrite H1, H2.
Qed.

Lemma requestAt60_event :
  newBounds (deepRefineComplete requestAt60 (Some southEast200))
  = Some (applyAdjustment boundsAt60 southEast200).
Proof.
  unfold deepRefineComplete.
  cbn [maxShiftMeters originalBounds currentBounds requestAt60].
  now rewrite no_clamp_at60.
Qed.

(** A cap that is negative cannot be met by any center. *)
Lemma withinCapAt_nonneg_cap (latDeg : R) (orig nb : Bounds) (cap : R) :
  withinCapAt latDeg orig nb cap -> 0 <= cap.
Proof.
  intros [Hn _].
  pose proof (Rabs_pos (offsetNorth (centerOf orig) (centerOf nb))). lra.
Qed.

(** C1 (as amended) -- the clamp of deep refinement.  In real
    arithmetic, for every iteration in which [originalBounds] is given and
    an adjustment is parsed, with a cap that is not negative, the center
    of the returned bounds is displaced from the center of
    [originalBounds] by at most [maxShiftMeters] (default 200) northwards
    (latitude difference times 111000) and eastwards when the longitude
    difference is converted at the latitude of the center of the
    [currentBounds] that the iteration received (longitude difference
    times 111000 times the cosine of that latitude).  The same holds
    after every iteration of a run of the client loop, whatever shifts
    are proposed. *)
Theorem deepRefine_clamp_at_request_latitude :
  (forall (req : Request) (orig nb : Bounds) (adj : RefinementAdjustment),
      originalBounds req = Some orig ->
      newBounds (deepRefineComplete req (Some adj)) = Some nb ->
      0 <= capOf req ->
      withinCapAt (lat (centerOf (currentBounds req))) orig nb (capOf req))
  /\ (forall (ai : nat -> Bounds -> option RefinementAdjustment)
             (orig bounds : Bounds) (cap : R) (remaining it : nat),
      0 <= cap ->
      Forall (fun step =>
                forall nb, newBounds (snd step) = Some nb ->
                  withinCapAt (lat (centerOf (fst step))) orig nb cap)
        (deepRefineLoop ai (Some orig) cap remaining it bounds)).
Proof.
  split.
  - intros req orig nb adj. apply deepRefineComplete_within.
  - intros ai orig bounds cap remaining it Hcap.
    now apply deepRefineLoop_within.
Qed.

Lemma deepRefine_clamp_at_request_latitude_witness :
  withinCapAt 60 boundsAt60
    (applyAdjustment boundsAt60 southEast200) 200.
Proof.
  destruct deepRefine_clamp_at_request_latitude as [Hstep _].
  assert (Hc : lat (centerOf boundsAt60) = 60) by (cbn; lra).
  specialize (Hstep requestAt60 boundsAt60
                (applyAdjustment boundsAt60 southEast200) southEast200).
  rewrite <- Hc. apply Hstep.
  - reflexivity.
  - apply requestAt60_event.
  - cbn. lra.
Defined.

(** The east offset of the bounds returned for [requestAt60] and
    [southEast200], measured at their own center. *)
Lemma east_offset_at60_exceeds :
  offsetEast (centerOf boundsAt60)
    (centerOf (applyAdjustment boundsAt60 southEast200)) > 200.
Proof.
  destruct (applyAdjustment_center boundsAt60 southEast200) as [Hlat Hlng].
  unfold offsetEast. rewrite Hlat, Hlng.
  cbn [centerOf boundsAt60 southEast200 lat lng north south east west
       shiftMeters shiftNorth shiftEast].
  replace ((61 + 59) / 2 * PI / 180) with (PI / 3) by lra.
  rewrite cos_PI3.
  pose proof PI_RGT_0 as Hpi.
  assert (Hcos : 1 / 2 < cos (((61 + 59) / 2 + -200 / 111000) * PI / 180)).
  { rewrite <- cos_PI3. apply cos_decreasing_1; nra. }
  match goal with |- ?e > _ =>
    replace e
      with (400 * cos (((61 + 59) / 2 + -200 / 111000) * PI / 180))
      by (field; lra)
  end.
  lra.
Qed.

(** C1 (as stated) fails.  From bounds centered at latitude 60 that are
    also the original bounds, a proposal of 200 m south and 200 m east
    is within the cap of 200 on both axes and is applied unclamped; the
    returned center then lies more than 200 m east of the original one
    when the longitude difference is converted at the returned center's
    own latitude, which is how the server measures the offset of the
    bounds it receives in the next iteration. *)
Lemma deepRefine_cap_exceeded_at_returned_latitude :
  newBounds (deepRefineComplete requestAt60 (Some southEast200))
    = Some (applyAdjustment boundsAt60 southEast200)
  /\ boundsClamped (deepRefineComplete requestAt60 (Some southEast200)) = false
  /\ Rabs (offsetEast (centerOf boundsAt60)
             (centerOf (applyAdjustment boundsAt60 southEast200))) > 200
  /\ ~ withinCap boundsAt60 (applyAdjustment boundsAt60 southEast200) 200.
Proof.
  pose proof east_offset_at60_exceeds as Hgt.
  assert (Habs : Rabs (offsetEast (centerOf boundsAt60)
             (centerOf (applyAdjustment boundsAt60 southEast200))) > 200).
  { rewrite Rabs_pos_eq; lra. }
  split; [apply requestAt60_event|].
  split; [|split; [exact Habs|]].
  - unfold deepRefineComplete.
    cbn [maxShiftMeters originalBounds currentBounds requestAt60].
    now rewrite no_clamp_at60.
  - intros [_ He]. lra.
Qed.

(** The server agrees: sent back with the same original bounds and an
    answer proposing no change, those bounds are found beyond the cap and
    the clamp flag is raised. *)
Lemma next_iteration_clamps :
  boundsClamped
    (deepRefineComplete
       {| currentBounds := applyAdjustment boundsAt60 southEast200;
          originalBounds := Some boundsAt60;
          maxShiftMeters := None |}
       (Some noShift)) = true.
Proof.
  set (req := {| currentBounds := applyAdjustment boundsAt60 southEast200;
                 originalBounds := Some boundsAt60;
                 maxShiftMeters := None |}).
  destruct (deepRefineComplete_clamped req boundsAt60 noShift eq_refl)
    as (_ & _ & Hflag).
  rewrite Hflag, clampToOriginal_flag.
  apply orb_true_iff. right. apply Rgtb_true.
  cbn [currentBounds req noShift shiftMeters shiftEast capOf maxShiftMeters].
  rewrite Rplus_0_r. unfold Math_abs.
  pose proof east_offset_at60_exceeds as Hgt.
  rewrite Rabs_pos_eq; lra.
Qed.

(** The flag computed from an adjustment, as a proposition. *)
Lemma continue_flag_true (adj : RefinementAdjustment) :
  Rltb (confidence adj) (9 / 10)
  && (Rgtb (Math_abs (shiftNorth (shiftMeters adj))) 2
      || Rgtb (Math_abs (shiftEast (shiftMeters adj))) 2) = true
  <-> confidence adj < 9 / 10
      /\ (Rabs (shiftNorth (shiftMeters adj)) > 2
          \/ Rabs (shiftEast (shiftMeters adj)) > 2).
Proof.
  unfold Math_abs.
  rewrite andb_true_iff, orb_true_iff, Rltb_true, !Rgtb_true. reflexivity.
Qed.

(** The event always carries the flag of the adjustment it carries. *)
Lemma deepRefineComplete_flag (req : Request)
    (parsed : option RefinementAdjustment) :
  shouldContinue (deepRefineComplete req parsed)
  = option_map
      (fun adj =>
         Rltb (confidence adj) (9 / 10)
         && (Rgtb (Math_abs (shiftNorth (shiftMeters adj))) 2
             || Rgtb (Math_abs (shiftEast (shiftMeters adj))) 2))
      (adjustment (deepRefineComplete req parsed))
  /\ (adjustment (deepRefineComplete req parsed) = None <-> parsed = None).
Proof.
  unfold deepRefineComplete. destruct parsed as [adj|].
  - destruct (originalBounds req) as [orig|].
    + destruct (clampToOriginal _ _ _ _). cbn. split; [reflexivity|].
      split; discriminate.
    + cbn. split; [reflexivity|]. split; discriminate.
  - cbn. split; [reflexivity|]. split; reflexivity.
Qed.

(** The adjustment carried by the event keeps the parsed confidence and
    scale factor, and is the parsed adjustment itself unless the clamp
    flag is raised. *)
Lemma deepRefineComplete_adjustment (req : Request)
    (adj0 : RefinementAdjustment) :
  exists adj,
    adjustment (deepRefineComplete req (Some adj0)) = Some adj
    /\ confidence adj = confidence adj0
    /\ scaleFactor adj = scaleFactor adj0
    /\ (boundsClamped (deepRefineComplete req (Some adj0)) = false ->
        adj = adj0).
Proof.
  unfold deepRefineComplete.
  destruct (originalBounds req) as [orig|]; [|exists adj0; cbn; auto].
  unfold clampToOriginal.
  repeat match goal with
         | |- context [Rgtb ?a ?b] => destruct (Rgtb a b)
         end; cbn; eexists; (split; [reflexivity|]);
    repeat split; try discriminate; auto.
Qed.

(** The event for a parsed adjustment, in terms of the request and of
    the parsed object alone. *)
Lemma deepRefineComplete_applied (req : Request)
    (adj0 : RefinementAdjustment) :
  adjustment (deepRefineComplete req (Some adj0))
  = Some (appliedAdjustment req adj0)
  /\ newBounds (deepRefineComplete req (Some adj0))
     = Some (applyAdjustment (currentBounds req) (appliedAdjustment req adj0))
  /\ shouldContinue (deepRefineComplete req (Some adj0))
     = Some (Rltb (confidence adj0) (9 / 10)
             && (Rgtb (Math_abs (shiftNorth (appliedShift req adj0))) 2
                 || Rgtb (Math_abs (shiftEast (appliedShift req adj0))) 2)).
Proof.
  destruct adj0 as [[n e] s c r].
  unfold deepRefineComplete, appliedAdjustment, appliedShift, capOf.
  destruct (originalBounds req) as [orig|]; [|cbn; repeat split].
  unfold clampToOriginal, clampShift, offsetNorth, offsetEast, centerOf.
  cbn [lat lng shiftMeters shiftNorth shiftEast].
  destruct (Rgtb (Math_abs ((((north (currentBounds req)
                               + south (currentBounds req)) / 2
                              - (north orig + south orig) / 2) * 111000) + n))
              match maxShiftMeters req with Some m => m | None => 200 end);
    destruct (Rgtb (Math_abs ((((east (currentBounds req)
                                 + west (currentBounds req)) / 2
                                - (east orig + west orig) / 2) * 111000
                               * cos (((north (currentBounds req)
                                        + south (currentBounds req)) / 2 * PI)
                                      / 180)) + e))
                match maxShiftMeters req with Some m => m | None => 200 end);
    cbn; repeat split.
Qed.

(** Without a raised clamp flag the shifts read are the parsed ones. *)
Lemma appliedShift_unclamped (req : Request) (adj0 : RefinementAdjustment) :
  boundsClamped (deepRefineComplete req (Some adj0)) = false ->
  appliedShift req adj0 = shiftMeters adj0.
Proof.
  destruct adj0 as [[n e] s c r].
  unfold deepRefineComplete, appliedShift, capOf.
  destruct (originalBounds req) as [orig|]; [|reflexivity].
  unfold clampToOriginal, clampShift, offsetNorth, offsetEast, centerOf.
  cbn [lat lng shiftMeters shiftNorth shiftEast].
  destruct (Rgtb (Math_abs ((((north (currentBounds req)
                               + south (currentBounds req)) / 2
                              - (north orig + south orig) / 2) * 111000) + n))
              match maxShiftMeters req with Some m => m | None => 200 end);
    destruct (Rgtb (Math_abs ((((east (currentBounds req)
                                 + west (currentBounds req)) / 2
                                - (east orig + west orig) / 2) * 111000
                               * cos (((north (currentBounds req)
                                        + south (currentBounds req)) / 2 * PI)
                                      / 180)) + e))
                match maxShiftMeters req with Some m => m | None => 200 end);
    cbn; intros H; try discriminate H; reflexivity.
Qed.

(** The stop test and the flag are complementary. *)
Lemma settled_flag (conf : R) (s : ShiftMeters) :
  Rltb conf (9 / 10)
  && (Rgtb (Math_abs (shiftNorth s)) 2 || Rgtb (Math_abs (shiftEast s)) 2)
  = false
  <-> settled conf s.
Proof.
  unfold settled, Math_abs.
  rewrite andb_false_iff, orb_false_iff, Rltb_false, !Rgtb_false. lra.
Qed.

(** One turn of the client loop on a parsed answer. *)
Lemma deepRefineLoop_parsed_step
    (ai : nat -> Bounds -> option RefinementAdjustment)
    (original : option Bounds) (cap : R) (remaining it : nat)
    (bounds : Bounds) (adj0 : RefinementAdjustment) :
  ai (S it) bounds = Some adj0 ->
  let req := {| currentBounds := bounds; originalBounds := original;
                maxShiftMeters := Some cap |} in
  (settled (confidence adj0) (appliedShift req adj0) ->
   deepRefineLoop ai original cap (S remaining) it bounds
   = [(bounds, deepRefineComplete req (Some adj0))])
  /\ (~ settled (confidence adj0) (appliedShift req adj0) ->
      deepRefineLoop ai original cap (S remaining) it bounds
      = (bounds, deepRefineComplete req (Some adj0))
        :: deepRefineLoop ai original cap remaining (S it)
             (applyAdjustment bounds (appliedAdjustment req adj0))).
Proof.
  intros Hai req.
  destruct (deepRefineComplete_applied req adj0) as (Hadj & Hnew & Hflag).
  cbn [deepRefineLoop]. rewrite Hai. fold req.
  rewrite Hadj, Hnew, Hflag. cbn [truthy currentBounds req].
  split; intros Hs.
  - apply settled_flag in Hs. now rewrite Hs.
  - destruct (Rltb (confidence adj0) (9 / 10)
              && (Rgtb (Math_abs (shiftNorth (appliedShift req adj0))) 2
                  || Rgtb (Math_abs (shiftEast (appliedShift req adj0))) 2))
      eqn:Hb; [reflexivity|].
    apply settled_flag in Hb. contradiction.
Qed.

(** The shifts read for a zero proposal on bounds that have drifted
    1110 m north: the north shift has become the way back to the cap. *)
Lemma drifted_applied_shift :
  appliedShift driftedRequest noShift
  = {| shiftNorth := -910; shiftEast := 0 |}.
Proof.
  unfold appliedShift.
  cbn [originalBounds currentBounds driftedRequest capOf maxShiftMeters
       noShift shiftMeters shiftNorth shiftEast].
  assert (Hn : offsetNorth (centerOf boundsAt60) (centerOf driftedBounds)
               = 1110).
  { unfold offsetNorth, centerOf, boundsAt60, driftedBounds. cbn. lra. }
  assert (He : offsetEast (centerOf boundsAt60) (centerOf driftedBounds) = 0).
  { unfold offsetEast, centerOf, boundsAt60, driftedBounds. cbn [lat lng east west].
    replace ((1 + -1) / 2 - (1 + -1) / 2) with 0 by lra.
    now rewrite !Rmult_0_l. }
  rewrite Hn, He. unfold clampShift, Math_abs.
  replace (1110 + 0) with 1110 by lra.
  replace (0 + 0) with 0 by lra.
  rewrite Rabs_R0, (Rabs_pos_eq 1110) by lra.
  assert (H1 : Rgtb 1110 200 = true) by (apply Rgtb_true; lra).
  assert (H2 : Rgtb 0 200 = false) by (apply Rgtb_false; lra).
  rewrite H1, H2. unfold Math_sign.
  assert (H3 : Rltb 0 1110 = true) by (apply Rltb_true; lra).
  rewrite H3. f_equal. lra.
Qed.

(** C7 (as amended) -- when deep refinement continues.  In the
    completion event, [shouldContinue] is [true] exactly when an
    adjustment was parsed, its confidence is below 0.9, and the absolute
    value of the north shift or of the east shift that the expression
    reads is above 2; these are the parsed shifts after the clamping
    block has overwritten them ([appliedShift]), and the adjustment of
    the event carries them with the parsed scale factor, confidence and
    reasoning.  They are the parsed shifts whenever [boundsClamped] is
    not raised.  In the client loop, an iteration with a parsed answer
    is the last one when the confidence is at least 0.9 or both shifts
    read are of at most 2 m, and is followed by a further iteration on
    the adjusted bounds otherwise (while iterations remain). *)
Theorem shouldContinue_iff :
  (forall (req : Request) (parsed : option RefinementAdjustment),
      shouldContinue (deepRefineComplete req parsed) = Some true
      <-> exists adj0,
            parsed = Some adj0
            /\ confidence adj0 < 9 / 10
            /\ (Rabs (shiftNorth (appliedShift req adj0)) > 2
                \/ Rabs (shiftEast (appliedShift req adj0)) > 2))
  /\ (forall (req : Request) (adj0 : RefinementAdjustment),
      adjustment (deepRefineComplete req (Some adj0))
      = Some {| shiftMeters := appliedShift req adj0;
                scaleFactor := scaleFactor adj0;
                confidence := confidence adj0;
                reasoning := reasoning adj0 |})
  /\ (forall (req : Request) (adj0 : RefinementAdjustment),
      boundsClamped (deepRefineComplete req (Some adj0)) = false ->
      appliedShift req adj0 = shiftMeters adj0)
  /\ (forall (ai : nat -> Bounds -> option RefinementAdjustment)
             (original : option Bounds) (cap : R) (remaining it : nat)
             (bounds : Bounds) (adj0 : RefinementAdjustment),
      ai (S it) bounds = Some adj0 ->
      let req := {| currentBounds := bounds; originalBounds := original;
                    maxShiftMeters := Some cap |} in
      (confidence adj0 >= 9 / 10
       \/ (Rabs (shiftNorth (appliedShift req adj0)) <= 2
           /\ Rabs (shiftEast (appliedShift req adj0)) <= 2) ->
       deepRefineLoop ai original cap (S remaining) it bounds
       = [(bounds, deepRefineComplete req (Some adj0))])
      /\ (confidence adj0 < 9 / 10
          /\ (Rabs (shiftNorth (appliedShift req adj0)) > 2
              \/ Rabs (shiftEast (appliedShift req adj0)) > 2) ->
          deepRefineLoop ai original cap (S remaining) it bounds
          = (bounds, deepRefineComplete req (Some adj0))
            :: deepRefineLoop ai original cap remaining (S it)
                 (applyAdjustment bounds
                    {| shiftMeters := appliedShift req adj0;
                       scaleFactor := scaleFactor adj0;
                       confidence := confidence adj0;
                       reasoning := reasoning adj0 |}))).
Proof.
  split; [|split; [|split]].
  - intros req [adj0|].
    + destruct (deepRefineComplete_applied req adj0) as (_ & _ & Hflag).
      rewrite Hflag. split.
      * intros H. injection H as H.
        apply andb_true_iff in H. destruct H as [Hc Hs].
        apply Rltb_true in Hc. apply orb_true_iff in Hs.
        unfold Math_abs in Hs. rewrite !Rgtb_true in Hs.
        exists adj0. auto.
      * intros (adj & Heq & Hc & Hs). injection Heq as <-.
        f_equal. apply andb_true_iff. split; [now apply Rltb_true|].
        apply orb_true_iff. unfold Math_abs. now rewrite !Rgtb_true.
    + cbn. split; [discriminate|]. intros (adj & Heq & _). discriminate.
  - intros req adj0. apply deepRefineComplete_applied.
  - apply appliedShift_unclamped.
  - intros ai original cap remaining it bounds adj0 Hai req. subst req.
    pose proof (deepRefineLoop_parsed_step ai original cap remaining it bounds
                  adj0 Hai) as Hstep.
    cbv zeta in Hstep. destruct Hstep as [Hstop Hgo].
    split.
    + intros H. apply Hstop. exact H.
    + intros [Hc Hs]. apply Hgo. unfold settled.
      intros [H|[Hn He]]; [lra|]. destruct Hs; lra.
Qed.

Lemma shouldContinue_iff_witness :
  handleDeepRefine alwaysConfidentFar None boundsAt60
  = [ (boundsAt60,
       deepRefineComplete
         {| currentBounds := boundsAt60; originalBounds := None;
            maxShiftMeters := Some 200 |} (Some confidentFar)) ]
  /\ appliedShift
       {| currentBounds := boundsAt60; originalBounds := None;
          maxShiftMeters := Some 200 |} confidentFar
     = shiftMeters confidentFar.
Proof.
  destruct shouldContinue_iff as (_ & _ & Hsame & Hloop).
  split.
  - unfold handleDeepRefine.
    apply (Hloop alwaysConfidentFar None 200 4%nat 0%nat boundsAt60
             confidentFar eq_refl).
    left. cbn. lra.
  - apply Hsame. reflexivity.
Defined.

(** A zero proposal that keeps the loop going.  The bounds have drifted
    1110 m north of the original ones and the model, not confident,
    proposes no shift at all: the clamping block turns the north shift
    into -910, the flag is raised although both proposed shifts are of
    at most 2 m, and the client loop runs a second iteration. *)
Lemma shouldContinue_true_for_zero_proposal :
  let ev := deepRefineComplete driftedRequest (Some noShift) in
  Rabs (shiftNorth (shiftMeters noShift)) <= 2
  /\ Rabs (shiftEast (shiftMeters noShift)) <= 2
  /\ adjustment ev
     = Some {| shiftMeters := {| shiftNorth := -910; shiftEast := 0 |};
               scaleFactor := 1; confidence := 1 / 2; reasoning := "" |}
  /\ shouldContinue ev = Some true
  /\ exists second rest,
       handleDeepRefine alwaysNoShift (Some boundsAt60) driftedBounds
       = (driftedBounds, ev) :: second :: rest.
Proof.
  intros ev.
  destruct (deepRefineComplete_applied driftedRequest noShift)
    as (Hadj & _ & Hflag).
  pose proof drifted_applied_shift as Hshift.
  assert (Hns : ~ settled (confidence noShift)
                    (appliedShift driftedRequest noShift)).
  { rewrite Hshift. unfold settled. cbn [confidence noShift shiftNorth shiftEast].
    intros [H|[H _]]; [lra|]. revert H.
    unfold Rabs. destruct (Rcase_abs (-910)); lra. }
  split; [cbn; rewrite Rabs_R0; lra|].
  split; [cbn; rewrite Rabs_R0; lra|].
  split.
  { subst ev. rewrite Hadj. unfold appliedAdjustment. rewrite Hshift.
    reflexivity. }
  split.
  { subst ev. rewrite Hflag. f_equal.
    destruct (Rltb (confidence noShift) (9 / 10)
              && (Rgtb (Math_abs (shiftNorth (appliedShift driftedRequest noShift))) 2
                  || Rgtb (Math_abs (shiftEast (appliedShift driftedRequest noShift))) 2))
      eqn:Hb; [reflexivity|].
    apply settled_flag in Hb. contradiction. }
  unfold handleDeepRefine.
  destruct (deepRefineLoop_parsed_step alwaysNoShift (Some boundsAt60) 200 4 0
              driftedBounds noShift eq_refl) as [_ Hgo].
  rewrite (Hgo Hns). fold driftedRequest. fold ev.
  cbn [deepRefineLoop]. eauto.
Qed.

(** C10 -- no clamp without [originalBounds].  When an adjustment is
    parsed and the request has no [originalBounds], the event carries the
    parsed adjustment as it is, [newBounds] is [applyAdjustment] of
    [currentBounds] and that adjustment, and [boundsClamped] is false,
    whatever [maxShiftMeters] is: the center moves north by the whole
    proposed shift. *)
Theorem deepRefine_without_original (req : Request)
    (adj : RefinementAdjustment) :
  originalBounds req = None ->
  let ev := deepRefineComplete req (Some adj) in
  adjustment ev = Some adj
  /\ newBounds ev = Some (applyAdjustment (currentBounds req) adj)
  /\ boundsClamped ev = false
  /\ offsetNorth (centerOf (currentBounds req))
       (centerOf (applyAdjustment (currentBounds req) adj))
     = shiftNorth (shiftMeters adj).
Proof.
  intros Horig ev. subst ev. unfold deepRefineComplete. rewrite Horig.
  cbn. repeat split.
  destruct (applyAdjustment_center (currentBounds req) adj) as [Hlat _].
  unfold offsetNorth. rewrite Hlat. field.
Qed.

Lemma deepRefine_without_original_witness :
  let req := {| currentBounds := boundsAt60; originalBounds := None;
                maxShiftMeters := Some 200 |} in
  let far := {| shiftMeters := {| shiftNorth := 5000; shiftEast := 0 |};
                scaleFactor := 1; confidence := 1 / 2; reasoning := "" |} in
  adjustment (deepRefineComplete req (Some far)) = Some far
  /\ newBounds (deepRefineComplete req (Some far))
     = Some (applyAdjustment boundsAt60 far)
  /\ boundsClamped (deepRefineComplete req (Some far)) = false
  /\ offsetNorth (centerOf boundsAt60) (centerOf (applyAdjustment boundsAt60 far))
     = 5000.
Proof.
  intros req far.
  apply (deepRefine_without_original req far). reflexivity.
Defined.

End DeepRefineFacts.

(** ** Polyline decoder *)

Section PolylineFacts.
Import Polyline.
Local Open Scope nat_scope.

(** One round of each loop, spelled out. *)
Lemma decodeGroup_S (fuel : nat) (encoded : JsString) (idx : nat)
    (shift result : Z) :
  decodeGroup (S fuel) encoded idx shift result =
  let byte := option_map (fun c => (c - 63)%Z) (charCodeAt encoded idx) in
  let result' :=
    js_or result (js_shl (js_and (ToInt32_num byte) 31) shift) in
  if continues byte
  then decodeGroup fuel encoded (idx + 1) (shift + 5)%Z result'
  else Some (idx + 1, result').
Proof. reflexivity. Qed.

Lemma decodeLoop_S (fuel : nat) (encoded : JsString) (idx : nat)
    (lat lng : Z) (points : list LatLng) :
  decodeLoop (S fuel) encoded idx lat lng points =
  if idx <? List.length encoded then
    match decodeGroup (S fuel) encoded idx 0 0 with
    | None => None
    | Some (idx1, result1) =>
        match decodeGroup (S fuel) encoded idx1 0 0 with
        | None => None
        | Some (idx2, result2) =>
            decodeLoop fuel encoded idx2
              (lat + zigzag result1)%Z (lng + zigzag result2)%Z
              (points ++ [ {| Polyline.lat :=
                                inject_Z (lat + zigzag result1) / 100000;
                              Polyline.lng :=
                                inject_Z (lng + zigzag result2) / 100000 |} ])
        end
    end
  else Some points.
Proof. reflexivity. Qed.

(** The continuation bit can only be set by a character of the string. *)
Lemma continues_in_range (encoded : JsString) (idx : nat) :
  continues (option_map (fun c => (c - 63)%Z) (charCodeAt encoded idx)) = true ->
  idx < List.length encoded.
Proof.
  unfold charCodeAt. intros H. apply nth_error_Some.
  destruct (nth_error encoded idx); [discriminate | discriminate H].
Qed.

(** The inner loop ends within one round more than the characters left,
    and moves the cursor forward. *)
Lemma decodeGroup_total (encoded : JsString) (fuel : nat) :
  forall (idx : nat) (shift result : Z),
    List.length encoded - idx < fuel ->
    exists idx' result',
      decodeGroup fuel encoded idx shift result = Some (idx', result')
      /\ idx < idx'.
Proof.
  induction fuel as [|fuel IH]; intros idx shift result Hfuel; [lia|].
  rewrite decodeGroup_S. cbv zeta.
  destruct (continues _) eqn:Hcont.
  - apply continues_in_range in Hcont.
    destruct (IH (idx + 1) (shift + 5)%Z
                (js_or result
                   (js_shl
                      (js_and
                         (ToInt32_num
                            (option_map (fun c => (c - 63)%Z)
                               (charCodeAt encoded idx))) 31) shift)))
      as (idx' & result' & Heq & Hlt); [lia|].
    exists idx', result'. split; [exact Heq | lia].
  - eexists _, _. split; [reflexivity | lia].
Qed.

(** More budget does not change what the inner loop returns. *)
Lemma decodeGroup_more_fuel (encoded : JsString) (fuel : nat) :
  forall (fuel' idx : nat) (shift result : Z) (out : nat * Z),
    decodeGroup fuel encoded idx shift result = Some out ->
    fuel <= fuel' ->
    decodeGroup fuel' encoded idx shift result = Some out.
Proof.
  induction fuel as [|fuel IH]; intros fuel' idx shift result out Heq Hle;
    [discriminate|].
  destruct fuel' as [|fuel']; [lia|].
  rewrite decodeGroup_S in *. cbv zeta in *.
  destruct (continues _); [|exact Heq].
  apply IH; [exact Heq | lia].
Qed.

(** The outer loop ends within one round more than the characters left. *)
Lemma decodeLoop_total (encoded : JsString) (fuel : nat) :
  forall (idx : nat) (lat lng : Z) (points : list LatLng),
    List.length encoded - idx < fuel ->
    exists out, decodeLoop fuel encoded idx lat lng points = Some out.
Proof.
  induction fuel as [|fuel IH]; intros idx lat lng points Hfuel; [lia|].
  rewrite decodeLoop_S.
  destruct (idx <? List.length encoded) eqn:Hidx; [|now eexists].
  apply Nat.ltb_lt in Hidx.
  destruct (decodeGroup_total encoded (S fuel) idx 0 0)
    as (idx1 & result1 & Heq1 & Hlt1); [lia|].
  rewrite Heq1.
  destruct (decodeGroup_total encoded (S fuel) idx1 0 0)
    as (idx2 & result2 & Heq2 & Hlt2); [lia|].
  rewrite Heq2.
  apply IH. lia.
Qed.

(** More budget does not change what the outer loop returns. *)
Lemma decodeLoop_more_fuel (encoded : JsString) (fuel : nat) :
  forall (fuel' idx : nat) (lat lng : Z) (points out : list LatLng),
    decodeLoop fuel encoded idx lat lng points = Some out ->
    fuel <= fuel' ->
    decodeLoop fuel' encoded idx lat lng points = Some out.
Proof.
  induction fuel as [|fuel IH];
    intros fuel' idx lat lng points out Heq Hle; [discriminate|].
  destruct fuel' as [|fuel']; [lia|].
  rewrite decodeLoop_S in *.
  destruct (idx <? List.length encoded); [|exact Heq].
  destruct (decodeGroup (S fuel) encoded idx 0 0) as [[idx1 result1]|] eqn:H1;
    [|discriminate].
  rewrite (decodeGroup_more_fuel _ _ (S fuel') _ _ _ _ H1) by lia.
  destruct (decodeGroup (S fuel) encoded idx1 0 0) as [[idx2 result2]|] eqn:H2;
    [|discriminate].
  rewrite (decodeGroup_more_fuel _ _ (S fuel') _ _ _ _ H2) by lia.
  apply IH; [exact Heq | lia].
Qed.

(** C5 -- the fixtures.  [decodePolyline("")] is the empty sequence, and
    the published example string decodes to exactly three points, the
    first being (38.5, -120.2), followed by (40.7, -120.95) and
    (43.252, -126.453). *)
Theorem decodePolyline_fixtures :
  decodePolyline (codeUnits "") = []
  /\ List.length (decodePolyline fixture) = 3
  /\ (exists p rest,
        decodePolyline fixture = p :: rest
        /\ (Polyline.lat p == 38.5)%Q /\ (Polyline.lng p == -120.2)%Q)
  /\ Forall2 (fun p q => (Polyline.lat p == fst q)%Q
                         /\ (Polyline.lng p == snd q)%Q)
       (decodePolyline fixture)
       [ (38.5, -120.2)%Q; (40.7, -120.95)%Q; (43.252, -126.453)%Q ].
Proof.
  split; [reflexivity|]. split; [vm_compute; reflexivity|]. split.
  - eexists _, _. split; [vm_compute; reflexivity|].
    split; vm_compute; reflexivity.
  - vm_compute. repeat constructor.
Qed.

(** C6 -- termination.  On every input string, malformed or truncated
    ones included, each continuation-bit loop stops after at most one
    round more than the characters left, having moved the cursor forward,
    and [decodePolyline] returns: any budget of loop rounds above the
    length of the string yields the same finite list of points. *)
Theorem decodePolyline_terminates :
  (forall (encoded : JsString) (idx : nat) (shift result : Z) (fuel : nat),
      List.length encoded - idx < fuel ->
      exists idx' result',
        decodeGroup fuel encoded idx shift result = Some (idx', result')
        /\ idx < idx')
  /\ (forall (encoded : JsString) (fuel : nat),
      List.length encoded < fuel ->
      decodePolylineFuel fuel encoded = Some (decodePolyline encoded)).
Proof.
  split.
  - intros encoded idx shift result fuel. apply decodeGroup_total.
  - intros encoded fuel Hfuel. unfold decodePolyline, decodePolylineFuel.
    destruct (decodeLoop_total encoded (S (List.length encoded)) 0 0 0 [])
      as [out Hout]; [lia|].
    rewrite Hout.
    apply (decodeLoop_more_fuel _ _ _ _ _ _ _ _ Hout). lia.
Qed.

Lemma decodePolyline_terminates_witness :
  decodePolylineFuel 40 (codeUnits "_p~iF~ps|U_ulLnnqC_mqNvx")
  = Some (decodePolyline (codeUnits "_p~iF~ps|U_ulLnnqC_mqNvx")).
Proof.
  destruct decodePolyline_terminates as [_ Hrun].
  apply Hrun. vm_compute. lia.
Defined.

End PolylineFacts.

(** ** Intersection geocoder *)

Section GeocodingFacts.
Import Geocoding.
Local Open Scope string_scope.

Variable World : Type.
Variable GeocodingResult : Type.
Variable geocodeAddress :
  string -> World -> Outcome (option GeocodingResult) * World.

(** C9 -- the two phrasings, in order.  [geocodeIntersection] first
    geocodes ["{road1} & {road2}, {city}, {state}"].  A result that is not
    null is returned as it is, and nothing else is asked.  On null it
    geocodes ["{road1} and {road2}, {city}, {state}"] and returns whatever
    that gives (null when it fails too); the addresses asked are then
    these two, in this order.  (When the first call rejects, the rejection
    is passed on and nothing else is asked.) *)
Theorem geocodeIntersection_two_phrasings
    (road1 road2 city state : string) (w : World) :
  let intersectionQuery :=
    road1 ++ " & " ++ road2 ++ ", " ++ city ++ ", " ++ state in
  let fallbackQuery :=
    road1 ++ " and " ++ road2 ++ ", " ++ city ++ ", " ++ state in
  let run := geocodeIntersection World GeocodingResult geocodeAddress
               road1 road2 city state w in
  (forall r w1,
      geocodeAddress intersectionQuery w = (Resolved (Some r), w1) ->
      run = (Resolved (Some r), w1, [intersectionQuery]))
  /\ (forall w1 out w2,
      geocodeAddress intersectionQuery w = (Resolved None, w1) ->
      geocodeAddress fallbackQuery w1 = (out, w2) ->
      run = (out, w2, [intersectionQuery; fallbackQuery]))
  /\ (forall e w1,
      geocodeAddress intersectionQuery w = (Rejected e, w1) ->
      run = (Rejected e, w1, [intersectionQuery])).
Proof.
  intros intersectionQuery fallbackQuery run. subst run.
  unfold geocodeIntersection, Geocoding.bind, awaitGeocodeAddress.
  fold intersectionQuery. fold fallbackQuery.
  repeat split.
  - intros r w1 H1. rewrite H1. reflexivity.
  - intros w1 out w2 H1 H2. rewrite H1, H2. reflexivity.
  - intros e w1 H1. rewrite H1. reflexivity.
Qed.

End GeocodingFacts.

Lemma geocodeIntersection_two_phrasings_witness :
  Geocoding.geocodeIntersection nat (Z * Z) Geocoding.andOnlyGeocoder
    "Mill Ave" "University Dr" "Tempe" "AZ" 0%nat
  = (Geocoding.Resolved (Some (33421, -111940)%Z), 2%nat,
     [ "Mill Ave & University Dr, Tempe, AZ"%string;
       "Mill Ave and University Dr, Tempe, AZ"%string ]).
Proof.
  destruct (geocodeIntersection_two_phrasings nat (Z * Z)
              Geocoding.andOnlyGeocoder
              "Mill Ave" "University Dr" "Tempe" "AZ" 0%nat)
    as (_ & Hfallback & _).
  apply (Hfallback 1%nat); reflexivity.
Defined.

(* ================================================================== *)
(** * Further properties of the same code *)
(* ================================================================== *)

(** ** Size and validity of the computed boxes *)

Section BoxFacts.
Import Geo Measures.
Local Open Scope R_scope.

Lemma widthOf_ratio (s a : R) : a > 0 -> widthOf s a = a * heightOf s a.
Proof.
  intros Ha. unfold widthOf, heightOf.
  destruct (Rgeb a 1); [field; lra | lra].
Qed.

Lemma longest_side (s a : R) :
  s > 0 -> a > 0 -> Rmax (widthOf s a) (heightOf s a) = s.
Proof.
  intros Hs Ha. unfold widthOf, heightOf.
  destruct (Rgeb a 1) eqn:Hge.
  - apply Rgeb_true in Hge. apply Rmax_left.
    assert (Hq : s / a > 0) by (apply Rdiv_lt_0_compat; lra).
    assert (Heq : s = s / a * a) by (field; lra).
    nra.
  - apply Rgeb_false in Hge. apply Rmax_right. nra.
Qed.

Lemma heightOf_sign (s a : R) : a > 0 -> (heightOf s a > 0 <-> s > 0).
Proof.
  intros Ha. unfold heightOf. destruct (Rgeb a 1); [|tauto].
  split; intros H.
  - assert (s = s / a * a) by (field; lra). nra.
  - apply Rdiv_lt_0_compat; lra.
Qed.

Lemma widthOf_sign (s a : R) : a > 0 -> (widthOf s a > 0 <-> s > 0).
Proof.
  intros Ha. unfold widthOf. destruct (Rgeb a 1); [tauto|].
  split; intros H; nra.
Qed.

(** Extents in meters of the boxes of both calculators. *)
Lemma calculators_extents (c : LatLng) (p : CornerPosition) (s a : R) :
  -90 < lat c < 90 ->
  heightMetersOf (calculateBounds c s a) = heightOf s a
  /\ widthMetersAt (lat c) (calculateBounds c s a) = widthOf s a
  /\ heightMetersOf (calculateBoundsFromCorner c p s a) = heightOf s a
  /\ widthMetersAt (lat c) (calculateBoundsFromCorner c p s a) = widthOf s a.
Proof.
  intros Hlat. pose proof (cos_deg_pos _ Hlat) as Hcos.
  destruct (calculateBounds_spans c s a) as [H1 H2].
  destruct (calculateBoundsFromCorner_spans c p s a) as [H3 H4].
  cbv zeta in *. unfold heightMetersOf, widthMetersAt.
  rewrite H1, H2, H3, H4. repeat split; field; lra.
Qed.

(** X1 -- The box of either calculator measures [sizeMeters] along its longest
    side and has the requested width-to-height ratio. *)
Theorem calculators_longest_side_and_ratio
    (c : LatLng) (p : CornerPosition) (s a : R) :
  s > 0 -> a > 0 -> -90 < lat c < 90 ->
  let center := calculateBounds c s a in
  let corner := calculateBoundsFromCorner c p s a in
  Rmax (widthMetersAt (lat c) center) (heightMetersOf center) = s
  /\ widthMetersAt (lat c) center = a * heightMetersOf center
  /\ Rmax (widthMetersAt (lat c) corner) (heightMetersOf corner) = s
  /\ widthMetersAt (lat c) corner = a * heightMetersOf corner.
Proof.
  intros Hs Ha Hlat center corner. subst center corner.
  destruct (calculators_extents c p s a Hlat) as (H1 & H2 & H3 & H4).
  rewrite H1, H2, H3, H4.
  repeat split; auto using longest_side, widthOf_ratio.
Qed.

Lemma calculators_longest_side_and_ratio_witness :
  let b := calculateBounds {| lat := 33; lng := -112 |} 200 (1 / 2) in
  Rmax (widthMetersAt 33 b) (heightMetersOf b) = 200
  /\ widthMetersAt 33 b = 1 / 2 * heightMetersOf b.
Proof.
  intros b.
  destruct (calculators_longest_side_and_ratio
              {| lat := 33; lng := -112 |} northwest 200 (1 / 2))
    as (H1 & H2 & _); cbn; try lra.
  split; assumption.
Defined.

(** X2 -- [calculateBounds] is centered on its first argument for every size
    and aspect ratio, also where it returns an empty or inverted box. *)
Theorem calculateBounds_centered (c : LatLng) (s a : R) :
  centerOf (calculateBounds c s a) = c.
Proof.
  rewrite calculateBounds_unfold. destruct c as [la lo].
  unfold centerOf. cbn. f_equal; lra.
Qed.

(** A size that is not positive gives a height that is not positive,
    whatever the aspect ratio. *)
Lemma heightOf_nonpos (s a : R) : s <= 0 -> heightOf s a <= 0.
Proof.
  intros Hs. unfold heightOf. destruct (Rgeb a 1) eqn:Ha; [|exact Hs].
  apply Rgeb_true in Ha.
  assert (Hinv : 0 < / a) by (apply Rinv_0_lt_compat; lra).
  unfold Rdiv. nra.
Qed.

(** X3 -- The calculators do not validate the size: for a size that is zero
    or negative, whatever the point and the aspect ratio, the box they
    return has [north <= south], so it does not satisfy [north > south]
    and [east > west]. *)
Theorem calculators_invalid_for_nonpositive_size
    (c : LatLng) (p : CornerPosition) (s a : R) :
  s <= 0 ->
  let center := calculateBounds c s a in
  let corner := calculateBoundsFromCorner c p s a in
  north center <= south center /\ ~ validBounds center
  /\ north corner <= south corner /\ ~ validBounds corner.
Proof.
  intros Hs center corner. subst center corner.
  destruct (calculateBounds_spans c s a) as [H1 _].
  destruct (calculateBoundsFromCorner_spans c p s a) as [H3 _].
  cbv zeta in *. pose proof (heightOf_nonpos s a Hs) as Hh.
  assert (Hd : heightOf s a / 111000 <= 0) by (unfold Rdiv; nra).
  unfold validBounds. repeat split; try lra; intros [Hn _]; lra.
Qed.

Lemma calculators_invalid_for_nonpositive_size_witness :
  ~ validBounds (calculateBounds {| lat := 33; lng := -112 |} 0 1)
  /\ ~ validBounds
       (calculateBoundsFromCorner {| lat := 33; lng := -112 |} southeast
          (-200) (1 / 2)).
Proof.
  split.
  - apply (calculators_invalid_for_nonpositive_size
             {| lat := 33; lng := -112 |} northwest 0 1). lra.
  - apply (calculators_invalid_for_nonpositive_size
             {| lat := 33; lng := -112 |} southeast (-200) (1 / 2)). lra.
Defined.

(** X4 -- [applyAdjustment] does not validate the scale factor: from a box
    with [north > south] and [east > west], a scale factor that is zero
    or negative gives a box with [north <= south] and [east <= west],
    which does not satisfy the invariant. *)
Theorem applyAdjustment_invalid_for_nonpositive_scale
    (b : Bounds) (adj : RefinementAdjustment) :
  validBounds b -> scaleFactor adj <= 0 ->
  let b' := applyAdjustment b adj in
  north b' <= south b' /\ east b' <= west b' /\ ~ validBounds b'.
Proof.
  intros [Hns Hew] Hk b'. subst b'.
  destruct (applyAdjustment_spans b adj) as [H1 H2].
  cbv zeta in *. unfold validBounds.
  assert (Hn : north (applyAdjustment b adj) <= south (applyAdjustment b adj))
    by nra.
  assert (He : east (applyAdjustment b adj) <= west (applyAdjustment b adj))
    by nra.
  repeat split; try assumption. intros [Hn' _]. lra.
Qed.

Lemma applyAdjustment_invalid_for_nonpositive_scale_witness :
  ~ validBounds
      (applyAdjustment
         {| north := 34; south := 33; east := -112; west := -113 |}
         {| shiftMeters := {| shiftNorth := 0; shiftEast := 0 |};
            scaleFactor := -1; confidence := 1 / 2; reasoning := "" |}).
Proof.
  apply (applyAdjustment_invalid_for_nonpositive_scale
           {| north := 34; south := 33; east := -112; west := -113 |}
           {| shiftMeters := {| shiftNorth := 0; shiftEast := 0 |};
              scaleFactor := -1; confidence := 1 / 2; reasoning := "" |}).
  - unfold validBounds; cbn; lra.
  - cbn; lra.
Defined.

(** X5 -- Two adjustments in a row: the scale factors multiply and the north
    shifts add, and when the first one does not move the box north or
    south the result is that of the single combined adjustment. *)
Theorem applyAdjustment_twice (b : Bounds) (a1 a2 : RefinementAdjustment) :
  let b2 := applyAdjustment (applyAdjustment b a1) a2 in
  north b2 - south b2 = (north b - south b) * (scaleFactor a1 * scaleFactor a2)
  /\ east b2 - west b2 = (east b - west b) * (scaleFactor a1 * scaleFactor a2)
  /\ lat (centerOf b2)
     = lat (centerOf b)
       + (shiftNorth (shiftMeters a1) + shiftNorth (shiftMeters a2)) / 111000
  /\ (shiftNorth (shiftMeters a1) = 0 -> b2 = applyAdjustment b (combined a1 a2)).
Proof.
  intros b2. subst b2.
  destruct (applyAdjustment_spans (applyAdjustment b a1) a2) as [S1 S2].
  destruct (applyAdjustment_spans b a1) as [S3 S4].
  destruct (applyAdjustment_center (applyAdjustment b a1) a2) as [C1 C2].
  destruct (applyAdjustment_center b a1) as [C3 C4].
  cbv zeta in *.
  split; [rewrite S1, S3; ring|].
  split; [rewrite S2, S4; ring|].
  split; [rewrite C1, C3; field|].
  intros Hzero.
  assert (Hlat : lat (centerOf (applyAdjustment b a1)) = lat (centerOf b)).
  { rewrite C3, Hzero. unfold Rdiv. ring. }
  unfold applyAdjustment at 1.
  change ((north (applyAdjustment b a1) + south (applyAdjustment b a1)) / 2)
    with (lat (centerOf (applyAdjustment b a1))).
  change ((east (applyAdjustment b a1) + west (applyAdjustment b a1)) / 2)
    with (lng (centerOf (applyAdjustment b a1))).
  cbn [lat lng]. rewrite S3, S4, Hlat, C4.
  unfold applyAdjustment, combined, centerOf. cbn. rewrite Hzero.
  f_equal; unfold Rdiv; ring.
Qed.

Lemma applyAdjustment_twice_witness :
  let b := {| north := 34; south := 33; east := -112; west := -113 |} in
  let a1 := {| shiftMeters := {| shiftNorth := 0; shiftEast := 30 |};
               scaleFactor := 2; confidence := 1 / 2; reasoning := "" |} in
  let a2 := {| shiftMeters := {| shiftNorth := 10; shiftEast := -5 |};
               scaleFactor := 1 / 2; confidence := 1 / 2; reasoning := "" |} in
  applyAdjustment (applyAdjustment b a1) a2 = applyAdjustment b (combined a1 a2).
Proof.
  intros b a1 a2.
  destruct (applyAdjustment_twice b a1 a2) as (_ & _ & _ & H).
  apply H. reflexivity.
Defined.

End BoxFacts.

(** ** More on the deep-refine clamp and loop *)

Section ClampFacts.
Import Geo DeepRefine.
Local Open Scope R_scope.

Lemma Math_sign_pos (x : R) : 0 < x -> Math_sign x = 1.
Proof.
  intros H. unfold Math_sign. apply Rltb_true in H. now rewrite H.
Qed.

Lemma Math_sign_neg (x : R) : x < 0 -> Math_sign x = -1.
Proof.
  intros H. unfold Math_sign.
  assert (H0 : Rltb 0 x = false) by (apply Rltb_false; lra).
  apply Rltb_true in H. now rewrite H0, H.
Qed.

(** Where the clamped shift leads, case by case. *)
Lemma clampShift_cases (cur shift cap : R) :
  0 <= cap ->
  (cur + shift > cap -> cur + clampShift cur shift cap = cap)
  /\ (cur + shift < - cap -> cur + clampShift cur shift cap = - cap)
  /\ (Rabs (cur + shift) <= cap -> clampShift cur shift cap = shift).
Proof.
  intros Hcap. split; [|split].
  - intros H. unfold clampShift, Math_abs.
    assert (Hg : Rgtb (Rabs (cur + shift)) cap = true).
    { apply Rgtb_true. rewrite Rabs_pos_eq; lra. }
    rewrite Hg, Math_sign_pos; lra.
  - intros H. unfold clampShift, Math_abs.
    assert (Hg : Rgtb (Rabs (cur + shift)) cap = true).
    { apply Rgtb_true. unfold Rabs. destruct (Rcase_abs _); lra. }
    rewrite Hg, Math_sign_neg; lra.
  - apply clampShift_id.
Qed.

(** X6 -- With [originalBounds], [boundsClamped] is raised exactly when the
    offset of the current center plus the proposed shift is beyond the cap
    on the north axis or on the east axis. *)
Theorem boundsClamped_iff (req : Request) (orig : Bounds)
    (adj : RefinementAdjustment) :
  originalBounds req = Some orig ->
  let current := centerOf (currentBounds req) in
  boundsClamped (deepRefineComplete req (Some adj)) = true
  <-> Rabs (offsetNorth (centerOf orig) current
            + shiftNorth (shiftMeters adj)) > capOf req
      \/ Rabs (offsetEast (centerOf orig) current
               + shiftEast (shiftMeters adj)) > capOf req.
Proof.
  intros Horig current. subst current.
  destruct (deepRefineComplete_clamped req orig adj Horig) as (_ & _ & Hflag).
  rewrite Hflag, clampToOriginal_flag, orb_true_iff, !Rgtb_true.
  reflexivity.
Qed.

Lemma boundsClamped_iff_witness :
  boundsClamped (deepRefineComplete requestAt60 (Some southEast200)) = false.
Proof.
  destruct (boundsClamped_iff requestAt60 boundsAt60 southEast200 eq_refl)
    as [Hto _].
  destruct (boundsClamped (deepRefineComplete requestAt60 (Some southEast200)));
    [|reflexivity].
  exfalso. destruct (Hto eq_refl) as [H | H]; revert H;
    unfold offsetNorth, offsetEast, Rabs;
    cbn [centerOf currentBounds requestAt60 boundsAt60 southEast200 lat lng
         north south east west shiftMeters shiftNorth shiftEast capOf
         maxShiftMeters];
    replace ((61 + 59) / 2 - (61 + 59) / 2) with 0 by lra;
    replace ((1 + -1) / 2 - (1 + -1) / 2) with 0 by lra;
    rewrite !Rmult_0_l; destruct (Rcase_abs _); lra.
Defined.

(** X7 -- A shift that would pass the cap on an axis is cut so that the new
    center lands exactly on the cap on that axis, on the side of the
    proposal; a shift that stays within the cap is applied as proposed.
    The east offset is taken at the latitude of the current center. *)
Theorem clamped_center_lands_on_cap (req : Request) (orig nb : Bounds)
    (adj : RefinementAdjustment) :
  originalBounds req = Some orig ->
  newBounds (deepRefineComplete req (Some adj)) = Some nb ->
  0 <= capOf req ->
  -90 < lat (centerOf (currentBounds req)) < 90 ->
  let current := centerOf (currentBounds req) in
  let proposedNorth :=
    offsetNorth (centerOf orig) current + shiftNorth (shiftMeters adj) in
  let proposedEast :=
    offsetEast (centerOf orig) current + shiftEast (shiftMeters adj) in
  let reachedNorth := offsetNorth (centerOf orig) (centerOf nb) in
  let reachedEast := offsetEastAt (lat current) (centerOf orig) (centerOf nb) in
  (proposedNorth > capOf req -> reachedNorth = capOf req)
  /\ (proposedNorth < - capOf req -> reachedNorth = - capOf req)
  /\ (Rabs proposedNorth <= capOf req -> reachedNorth = proposedNorth)
  /\ (proposedEast > capOf req -> reachedEast = capOf req)
  /\ (proposedEast < - capOf req -> reachedEast = - capOf req)
  /\ (Rabs proposedEast <= capOf req -> reachedEast = proposedEast).
Proof.
  intros Horig Hnb Hcap Hlat current pN pE rN rE.
  subst rN rE pN pE current.
  destruct (deepRefineComplete_clamped req orig adj Horig) as (_ & Hnew & _).
  cbv zeta in Hnew. rewrite Hnew in Hnb. injection Hnb as <-.
  pose proof (cos_deg_pos _ Hlat) as Hcos.
  destruct (clampToOriginal_fields (currentBounds req) orig (capOf req) adj)
    as (Hn & He & _).
  cbv zeta in Hn, He.
  destruct (applyAdjustment_offsets orig (currentBounds req)
              (fst (clampToOriginal (currentBounds req) orig (capOf req) adj)))
    as [Hon Hoe]; [lra|].
  rewrite Hon, Hoe, Hn, He.
  destruct (clampShift_cases
              (offsetNorth (centerOf orig) (centerOf (currentBounds req)))
              (shiftNorth (shiftMeters adj)) (capOf req) Hcap)
    as (N1 & N2 & N3).
  destruct (clampShift_cases
              (offsetEast (centerOf orig) (centerOf (currentBounds req)))
              (shiftEast (shiftMeters adj)) (capOf req) Hcap)
    as (E1 & E2 & E3).
  repeat split; intros H; auto.
  - now rewrite N3.
  - now rewrite E3.
Qed.

Lemma clamped_center_lands_on_cap_witness :
  exists nb,
    newBounds (deepRefineComplete requestAt60 (Some Samples.farNorthWest))
      = Some nb
    /\ offsetNorth (centerOf boundsAt60) (centerOf nb) = 200
    /\ offsetEastAt 60 (centerOf boundsAt60) (centerOf nb) = -200.
Proof.
  destruct (deepRefineComplete_clamped requestAt60 boundsAt60
              Samples.farNorthWest eq_refl) as (_ & Hnew & _).
  eexists. split; [exact Hnew|].
  assert (Hc : lat (centerOf boundsAt60) = 60) by (cbn; lra).
  assert (Hn0 : offsetNorth (centerOf boundsAt60) (centerOf boundsAt60) = 0)
    by (unfold offsetNorth; lra).
  assert (He0 : offsetEast (centerOf boundsAt60) (centerOf boundsAt60) = 0)
    by (unfold offsetEast; lra).
  destruct (clamped_center_lands_on_cap requestAt60 boundsAt60 _
              Samples.farNorthWest eq_refl Hnew)
    as (Hn & _ & _ & _ & He & _).
  - cbn. lra.
  - cbn. lra.
  - cbn [currentBounds requestAt60 capOf maxShiftMeters] in Hn, He.
    rewrite Hn0 in Hn. rewrite He0 in He. rewrite Hc in He.
    split; [apply Hn | apply He]; cbn; lra.
Defined.

(** What every event with a parsed adjustment carries. *)
Lemma deepRefineComplete_newBounds (req : Request)
    (adj0 : RefinementAdjustment) :
  exists adj,
    adjustment (deepRefineComplete req (Some adj0)) = Some adj
    /\ newBounds (deepRefineComplete req (Some adj0))
       = Some (applyAdjustment (currentBounds req) adj).
Proof.
  unfold deepRefineComplete.
  destruct (originalBounds req) as [orig|].
  - destruct (clampToOriginal _ _ _ _). cbn. eauto.
  - cbn. eauto.
Qed.

(** X8 -- The clamp never touches the scale factor: with or without
    [originalBounds], clamped or not, the returned box has the spans of
    [currentBounds] multiplied by the parsed scale factor, and the event
    keeps the parsed scale factor and confidence. *)
Theorem clamp_keeps_scale (req : Request) (adj0 : RefinementAdjustment) :
  exists nb adj,
    newBounds (deepRefineComplete req (Some adj0)) = Some nb
    /\ adjustment (deepRefineComplete req (Some adj0)) = Some adj
    /\ scaleFactor adj = scaleFactor adj0
    /\ confidence adj = confidence adj0
    /\ north nb - south nb
       = (north (currentBounds req) - south (currentBounds req))
         * scaleFactor adj0
    /\ east nb - west nb
       = (east (currentBounds req) - west (currentBounds req))
         * scaleFactor adj0.
Proof.
  destruct (deepRefineComplete_newBounds req adj0) as (adj & Hadj & Hnb).
  destruct (deepRefineComplete_adjustment req adj0)
    as (adj' & Hadj' & Hconf & Hscale & _).
  rewrite Hadj in Hadj'. injection Hadj' as <-.
  exists (applyAdjustment (currentBounds req) adj), adj.
  destruct (applyAdjustment_spans (currentBounds req) adj) as [S1 S2].
  cbv zeta in S1, S2. rewrite S1, S2, Hscale. repeat split; auto.
Qed.

(** One round of the client loop. *)
Lemma deepRefineLoop_step
    (ai : nat -> Bounds -> option RefinementAdjustment)
    (original : option Bounds) (cap : R) (remaining it : nat)
    (bounds : Bounds) :
  exists ev tail,
    deepRefineLoop ai original cap (S remaining) it bounds
    = (bounds, ev) :: tail
    /\ (tail = []
        \/ (shouldContinue ev = Some true
            /\ exists nb, newBounds ev = Some nb
                 /\ tail = deepRefineLoop ai original cap remaining (S it) nb)).
Proof.
  cbn [deepRefineLoop].
  set (req := {| currentBounds := bounds; originalBounds := original;
                 maxShiftMeters := Some cap |}).
  eexists _, _. split; [reflexivity|].
  destruct (ai (S it) bounds) as [adj0|]; [|left; reflexivity].
  destruct (deepRefineComplete_newBounds req adj0) as (adj & Hadj & Hnb).
  rewrite Hadj, Hnb.
  destruct (shouldContinue (deepRefineComplete req (Some adj0)))
    as [[|]|]; cbn [truthy]; [|now left|now left].
  right. split; [reflexivity|]. eexists. split; reflexivity.
Qed.

(** X9 -- The client loop sends at most [maxIterations] requests (five in
    [handleDeepRefine]); the first carries the bounds it started from,
    every later one carries the bounds returned by the request before it,
    and only an event with [shouldContinue] true is followed by another
    request. *)
Theorem deepRefineLoop_shape
    (ai : nat -> Bounds -> option RefinementAdjustment)
    (original : option Bounds) (cap : R) (remaining it : nat)
    (bounds : Bounds) :
  let trace := deepRefineLoop ai original cap remaining it bounds in
  (List.length trace <= remaining)%nat
  /\ (forall sent ev, nth_error trace 0 = Some (sent, ev) -> sent = bounds)
  /\ (forall i sent1 ev1 sent2 ev2,
         nth_error trace i = Some (sent1, ev1) ->
         nth_error trace (S i) = Some (sent2, ev2) ->
         shouldContinue ev1 = Some true /\ newBounds ev1 = Some sent2).
Proof.
  revert it bounds. induction remaining as [|remaining IH]; intros it bounds.
  - cbn. split; [lia|]. split.
    + intros sent ev H. discriminate.
    + intros i s1 e1 s2 e2 H1 H2. destruct i; discriminate.
  - destruct (deepRefineLoop_step ai original cap remaining it bounds)
      as (ev & tail & Heq & Htail).
    cbv zeta. rewrite Heq.
    destruct Htail as [-> | (Hcont & nb & Hnb & ->)].
    + cbn [List.length nth_error]. split; [lia|]. split.
      * intros sent ev' H. now injection H.
      * intros [|i] s1 e1 s2 e2 H1 H2; cbn in H2;
          [discriminate | destruct i; discriminate].
    + destruct (IH (S it) nb) as (Hlen & Hfirst & Hchain).
      cbv zeta in Hlen, Hfirst, Hchain.
      cbn [List.length nth_error]. split; [lia|]. split.
      * intros sent ev' H. now injection H.
      * intros [|i] s1 e1 s2 e2 H1 H2; cbn [nth_error] in H1, H2.
        -- injection H1 as _ <-. split; [exact Hcont|].
           rewrite Hnb. f_equal. symmetry. eapply Hfirst. exact H2.
        -- eapply Hchain; eassumption.
Qed.

Lemma deepRefineLoop_shape_witness :
  (List.length (handleDeepRefine alwaysConfidentFar (Some boundsAt60) boundsAt60)
   <= 5)%nat.
Proof.
  apply (deepRefineLoop_shape alwaysConfidentFar (Some boundsAt60) 200
           5%nat 0%nat boundsAt60).
Defined.

End ClampFacts.

(** ** More on the polyline decoder *)

Section PolylineCount.
Import Polyline.
Local Open Scope nat_scope.

(** Every run of the inner loop moves the cursor forward. *)
Lemma decodeGroup_advances (encoded : JsString) (fuel : nat) :
  forall (idx : nat) (shift result : Z) (idx' : nat) (result' : Z),
    decodeGroup fuel encoded idx shift result = Some (idx', result') ->
    idx < idx'.
Proof.
  induction fuel as [|fuel IH]; intros idx shift result idx' result' H;
    [discriminate|].
  rewrite decodeGroup_S in H. cbv zeta in H.
  destruct (continues _).
  - apply IH in H. lia.
  - injection H as <- _. lia.
Qed.

(** Points added by the outer loop from a given cursor. *)
Lemma decodeLoop_count (encoded : JsString) (fuel : nat) :
  forall (idx : nat) (lat lng : Z) (points out : list LatLng),
    decodeLoop fuel encoded idx lat lng points = Some out ->
    exists n,
      List.length out = List.length points + n
      /\ (List.length encoded <= idx -> n = 0)
      /\ (idx < List.length encoded ->
          1 <= n /\ 2 * n <= List.length encoded - idx + 1).
Proof.
  induction fuel as [|fuel IH]; intros idx lat lng points out H;
    [discriminate|].
  rewrite decodeLoop_S in H.
  destruct (idx <? List.length encoded) eqn:Hidx.
  - apply Nat.ltb_lt in Hidx.
    destruct (decodeGroup (S fuel) encoded idx 0 0) as [[idx1 r1]|] eqn:H1;
      [|discriminate].
    destruct (decodeGroup (S fuel) encoded idx1 0 0) as [[idx2 r2]|] eqn:H2;
      [|discriminate].
    apply decodeGroup_advances in H1, H2.
    apply IH in H. destruct H as (n & Hlen & Hzero & Hpos).
    rewrite length_app in Hlen. cbn [List.length] in Hlen.
    exists (S n). split; [lia|]. split; [lia|].
    intros _. split; [lia|].
    destruct (Nat.lt_ge_cases idx2 (List.length encoded)) as [Hlt | Hge].
    + destruct (Hpos Hlt). lia.
    + rewrite (Hzero Hge). lia.
  - apply Nat.ltb_ge in Hidx. injection H as <-.
    exists 0. split; [lia|]. split; [reflexivity | lia].
Qed.

(** X10 -- A string of [n] characters decodes to at most [(n + 1) / 2] points,
    and to at least one point unless it is empty: the result is empty
    only for the empty string. *)
Theorem decodePolyline_point_count (encoded : JsString) :
  2 * List.length (decodePolyline encoded) <= List.length encoded + 1
  /\ (decodePolyline encoded = [] <-> encoded = []).
Proof.
  unfold decodePolyline, decodePolylineFuel.
  destruct (decodeLoop_total encoded (S (List.length encoded)) 0 0 0 [])
    as [out Hout]; [lia|].
  rewrite Hout.
  destruct (decodeLoop_count _ _ _ _ _ _ _ Hout) as (n & Hlen & Hzero & Hpos).
  cbn [List.length] in Hlen.
  destruct encoded as [|c rest].
  - rewrite (Hzero (Nat.le_refl _)) in Hlen.
    destruct out; [|discriminate]. cbn. split; [lia | tauto].
  - destruct Hpos as [H1 H2]; [cbn; lia|].
    split; [lia|].
    split; [|discriminate].
    intros ->. cbn in Hlen. lia.
Qed.

End PolylineCount.

Section PolylineValues.
Import Polyline PolylineFormat.
Local Open Scope Z_scope.

Lemma ToInt32_small (x : Z) : - 2 ^ 31 <= x < 2 ^ 31 -> ToInt32 x = x.
Proof. intros H. unfold ToInt32. rewrite Z.mod_small; lia. Qed.

Lemma land_31 (x : Z) : Z.land x 31 = x mod 32.
Proof. change 31 with (Z.ones 5). now rewrite Z.land_ones. Qed.

Lemma land_1 (x : Z) : Z.land x 1 = x mod 2.
Proof. change 1 with (Z.ones 1) at 1. now rewrite Z.land_ones. Qed.

(** X11 -- The sign decoding, on the 31-bit values a group can carry: even
    values are the non-negative numbers doubled, odd values the negative
    ones. *)
Theorem zigzag_signed (n : Z) :
  0 <= n < 2 ^ 30 ->
  zigzag (2 * n) = n /\ zigzag (2 * n + 1) = - n - 1.
Proof.
  intros Hn. unfold zigzag, js_and, js_sar, js_not.
  change (ToInt32 1) with 1. change (Z.land 1 31) with 1.
  rewrite !(ToInt32_small (2 * n)), !(ToInt32_small (2 * n + 1)) by lia.
  rewrite !land_1, !Z.shiftr_div_pow2 by lia. change (2 ^ 1) with 2.
  replace ((2 * n) mod 2) with 0 by (symmetry; apply Z.mod_divide; [lia|];
    now exists n; lia).
  replace ((2 * n + 1) mod 2) with 1
    by (rewrite Z.add_comm, Z.mul_comm, Z.mod_add by lia; reflexivity).
  change (ToInt32 0) with 0. change (ToInt32 1) with 1. cbn [Z.eqb negb].
  replace (2 * n / 2) with n by (rewrite Z.mul_comm, Z.div_mul; lia).
  replace ((2 * n + 1) / 2) with n
    by (rewrite Z.add_comm, Z.mul_comm, Z.div_add by lia; reflexivity).
  rewrite ToInt32_small by lia. rewrite Z.lnot_eq_pred_opp. split; lia.
Qed.

Lemma zigzag_signed_witness :
  zigzag (2 * 12019999) = 12019999
  /\ zigzag (2 * 12019999 + 1) = - 12019999 - 1.
Proof. apply (zigzag_signed 12019999). lia. Defined.

(** Bits below [s] and bits from [s] up do not meet. *)
Lemma land_low_high (r x s : Z) :
  0 <= s -> 0 <= r < 2 ^ s -> Z.land r (Z.shiftl x s) = 0.
Proof.
  intros Hs Hr. apply Z.bits_inj'. intros n Hn.
  rewrite Z.land_spec, Z.bits_0.
  destruct (Z.lt_ge_cases n s) as [Hlt | Hge].
  - rewrite Z.shiftl_spec_low by lia. apply andb_false_r.
  - assert (Hbit : Z.testbit r n = false).
    { apply Z.testbit_false; [lia|]. rewrite Z.div_small; [reflexivity|].
      split; [lia|]. apply Z.lt_le_trans with (2 ^ s); [lia|].
      apply Z.pow_le_mono_r; lia. }
    now rewrite Hbit.
Qed.

(** One round of the inner loop adds the character's chunk at the
    current shift. *)
Lemma accumulate_chunk (code shift result : Z) :
  63 <= code <= 126 -> 0 <= shift <= 25 -> 0 <= result < 2 ^ shift ->
  js_or result (js_shl (js_and (ToInt32_num (Some (code - 63))) 31) shift)
  = result + chunkOf code * 2 ^ shift
  /\ 0 <= chunkOf code < 32.
Proof.
  intros Hcode Hshift Hres.
  assert (Hchunk : 0 <= chunkOf code < 32).
  { unfold chunkOf. rewrite land_31. apply Z.mod_pos_bound. lia. }
  split; [|exact Hchunk].
  assert (Hpow : 0 < 2 ^ shift <= 2 ^ 25).
  { split; [apply Z.pow_pos_nonneg; lia | apply Z.pow_le_mono_r; lia]. }
  change (2 ^ 25) with 33554432 in Hpow.
  unfold js_or, js_shl, js_and, ToInt32_num.
  change (ToInt32 31) with 31.
  rewrite !(ToInt32_small (code - 63)) by lia.
  fold (chunkOf code).
  rewrite !(ToInt32_small (chunkOf code)) by lia.
  rewrite (land_31 shift), (Z.mod_small shift) by lia.
  rewrite Z.shiftl_mul_pow2 by lia.
  assert (Hprod : 0 <= chunkOf code * 2 ^ shift < 2 ^ 30).
  { change (2 ^ 30) with (32 * 33554432). nia. }
  change (2 ^ 30) with 1073741824 in Hprod.
  rewrite !(ToInt32_small (chunkOf code * 2 ^ shift)) by lia.
  rewrite !(ToInt32_small result) by lia.
  pose proof (Z.add_lor_land result (chunkOf code * 2 ^ shift)) as Hadd.
  rewrite <- (Z.shiftl_mul_pow2 (chunkOf code) shift) in Hadd at 2 by lia.
  rewrite land_low_high in Hadd by lia.
  rewrite Z.add_0_r in Hadd. rewrite Hadd.
  apply ToInt32_small. lia.
Qed.

Lemma charCodeAt_middle (pre post : JsString) (c : Z) :
  charCodeAt (pre ++ c :: post) (List.length pre) = Some c.
Proof.
  unfold charCodeAt. rewrite nth_error_app2 by lia.
  now rewrite Nat.sub_diag.
Qed.

Lemma groupValue_cons (c : Z) (g : list Z) :
  groupValue (c :: g) = chunkOf c + 32 * groupValue g.
Proof. reflexivity. Qed.

(** The inner loop on a complete group, entered with some chunks already
    accumulated below [shift]. *)
Lemma decodeGroup_complete_from (conts : list Z) :
  forall (last : Z) (pre post : JsString) (fuel : nat) (shift result : Z),
    Forall (fun c => 95 <= c <= 126) conts ->
    63 <= last <= 94 ->
    0 <= shift ->
    shift + 5 * Z.of_nat (List.length conts) <= 25 ->
    0 <= result < 2 ^ shift ->
    (List.length conts < fuel)%nat ->
    decodeGroup fuel (pre ++ (conts ++ [last]) ++ post)
      (List.length pre) shift result
    = Some ((List.length pre + List.length (conts ++ [last]))%nat,
            result + 2 ^ shift * groupValue (conts ++ [last])).
Proof.
  induction conts as [|c conts IH];
    intros last pre post fuel shift result Hconts Hlast Hshift Hroom Hres Hfuel;
    (destruct fuel as [|fuel]; [lia|]); rewrite decodeGroup_S; cbv zeta.
  - cbn [app]. rewrite charCodeAt_middle. cbn [option_map].
    destruct (accumulate_chunk last shift result) as [Hacc _];
      [lia | cbn in Hroom; lia | lia |].
    rewrite Hacc.
    assert (Hstop : continues (Some (last - 63)) = false)
      by (cbn; apply Z.leb_gt; lia).
    rewrite Hstop. f_equal. apply f_equal2.
    + cbn. lia.
    + rewrite groupValue_cons. cbn. lia.
  - inversion Hconts as [|c' conts' Hc Hrest]; subst.
    cbn [app]. rewrite charCodeAt_middle. cbn [option_map].
    cbn [List.length] in Hroom, Hfuel.
    destruct (accumulate_chunk c shift result) as [Hacc Hchunk];
      [lia | lia | lia |].
    rewrite Hacc.
    assert (Hgo : continues (Some (c - 63)) = true)
      by (cbn; apply Z.leb_le; lia).
    rewrite Hgo.
    replace (pre ++ c :: (conts ++ [last]) ++ post)
      with ((pre ++ [c]) ++ (conts ++ [last]) ++ post)
      by (rewrite <- app_assoc; reflexivity).
    replace (List.length pre + 1)%nat with (List.length (pre ++ [c]))
      by (rewrite length_app; reflexivity).
    assert (Hpow : 2 ^ (shift + 5) = 2 ^ shift * 32)
      by (rewrite Z.pow_add_r by lia; reflexivity).
    assert (Hpos : 0 < 2 ^ shift) by (apply Z.pow_pos_nonneg; lia).
    rewrite IH; try assumption; try lia.
    + f_equal. apply f_equal2.
      * cbn [List.length]. rewrite !length_app. cbn [List.length]. lia.
      * rewrite groupValue_cons, Hpow. ring.
    + rewrite Hpow. nia.
Qed.

(** The inner loop on a complete group: it stops right after the group
    and returns the value of its chunks. *)
Lemma decodeGroup_complete (group pre post : JsString) (fuel : nat) :
  completeGroup group ->
  (List.length group <= fuel)%nat ->
  decodeGroup fuel (pre ++ group ++ post) (List.length pre) 0 0
  = Some ((List.length pre + List.length group)%nat, groupValue group).
Proof.
  intros (conts & last & -> & Hconts & Hlast & Hlen) Hfuel.
  rewrite length_app in Hlen, Hfuel. cbn [List.length] in Hlen, Hfuel.
  rewrite (decodeGroup_complete_from conts last pre post fuel 0 0);
    try assumption; try lia.
  f_equal. apply f_equal2; [reflexivity|].
  change (2 ^ 0) with 1. lia.
Qed.

Lemma completeGroup_nonempty (group : list Z) :
  completeGroup group -> (1 <= List.length group)%nat.
Proof.
  intros (conts & last & -> & _). rewrite length_app. cbn. lia.
Qed.

(** The outer loop on a string of complete groups. *)
Lemma decodeLoop_complete (pairs : list (list Z * list Z)) :
  forall (pre : JsString) (fuel : nat) (lat lng : Z) (points : list LatLng),
    Forall (fun p => completeGroup (fst p) /\ completeGroup (snd p)) pairs ->
    (List.length (flatten pairs) < fuel)%nat ->
    decodeLoop fuel (pre ++ flatten pairs) (List.length pre) lat lng points
    = Some (points ++ pathFrom lat lng pairs).
Proof.
  induction pairs as [|[glat glng] pairs IH];
    intros pre fuel lat lng points Hall Hfuel;
    (destruct fuel as [|fuel]; [lia|]); rewrite decodeLoop_S.
  - cbn [flatten pathFrom]. rewrite !app_nil_r.
    now rewrite Nat.ltb_irrefl.
  - inversion Hall as [|p ps [Hlat Hlng] Hrest]; subst.
    cbn [fst snd] in Hlat, Hlng.
    pose proof (completeGroup_nonempty _ Hlat) as Hn1.
    pose proof (completeGroup_nonempty _ Hlng) as Hn2.
    cbn [flatten] in *. rewrite !length_app in Hfuel.
    assert (Hin : (List.length pre
                   <? List.length (pre ++ glat ++ glng ++ flatten pairs))%nat
                  = true)
      by (apply Nat.ltb_lt; rewrite !length_app; lia).
    rewrite Hin.
    rewrite (decodeGroup_complete glat pre (glng ++ flatten pairs))
      by (assumption || lia).
    replace (pre ++ glat ++ glng ++ flatten pairs)
      with ((pre ++ glat) ++ glng ++ flatten pairs)
      by (now rewrite <- app_assoc).
    replace (List.length pre + List.length glat)%nat
      with (List.length (pre ++ glat)) by (now rewrite length_app).
    rewrite (decodeGroup_complete glng (pre ++ glat) (flatten pairs))
      by (assumption || lia).
    replace ((pre ++ glat) ++ glng ++ flatten pairs)
      with ((pre ++ glat ++ glng) ++ flatten pairs)
      by (now rewrite <- !app_assoc).
    replace (List.length (pre ++ glat) + List.length glng)%nat
      with (List.length (pre ++ glat ++ glng))
      by (rewrite !length_app; lia).
    rewrite IH by (assumption || lia).
    cbn [pathFrom]. now rewrite <- app_assoc.
Qed.

(** X12 -- What the decoder computes on well-formed input.  For a string made
    of complete groups, alternately for latitude and longitude, the
    decoder returns one point per pair of groups, in order: the running
    sums of the signed group values, divided by 1e5. *)
Theorem decodePolyline_complete_groups (pairs : list (list Z * list Z)) :
  Forall (fun p => completeGroup (fst p) /\ completeGroup (snd p)) pairs ->
  decodePolyline (flatten pairs) = pathFrom 0 0 pairs.
Proof.
  intros Hall. unfold decodePolyline, decodePolylineFuel.
  pose proof (decodeLoop_complete pairs [] (S (List.length (flatten pairs)))
                0 0 [] Hall) as H.
  cbn [app List.length] in H. rewrite H by lia. reflexivity.
Qed.

Lemma groupShapeb_sound (group : list Z) :
  PolylineCheck.groupShapeb group = true ->
  exists conts last,
    group = conts ++ [last]
    /\ Forall (fun c => 95 <= c <= 126) conts
    /\ 63 <= last <= 94.
Proof.
  induction group as [|c rest IH]; [discriminate|].
  destruct rest as [|c' rest'].
  - cbn. intros H. apply andb_true_iff in H. destruct H as [H1 H2].
    exists [], c. repeat split; try constructor; lia.
  - intros H. change (PolylineCheck.groupShapeb (c :: c' :: rest'))
      with ((95 <=? c) && (c <=? 126)
            && PolylineCheck.groupShapeb (c' :: rest')) in H.
    apply andb_true_iff in H. destruct H as [H1 H2].
    apply andb_true_iff in H1. destruct H1 as [H0 H1].
    destruct (IH H2) as (conts & last & Heq & Hall & Hlast).
    exists (c :: conts), last. rewrite Heq. repeat split; try lia.
    constructor; [lia | exact Hall].
Qed.

Lemma completeGroupb_sound (group : list Z) :
  PolylineCheck.completeGroupb group = true -> completeGroup group.
Proof.
  unfold PolylineCheck.completeGroupb. intros H.
  apply andb_true_iff in H. destruct H as [Hshape Hlen].
  apply Nat.leb_le in Hlen.
  destruct (groupShapeb_sound _ Hshape) as (conts & last & Heq & Hall & Hlast).
  exists conts, last. repeat split; try assumption; lia.
Qed.

Lemma decodePolyline_complete_groups_witness :
  decodePolyline fixture = pathFrom 0 0 PolylineCheck.fixturePairs.
Proof.
  apply (decodePolyline_complete_groups PolylineCheck.fixturePairs).
  repeat constructor; apply completeGroupb_sound; vm_compute; reflexivity.
Defined.

End PolylineValues.

(** ** Data URLs *)

Section DataUrlFacts.
Import Polyline DataUrl.
Local Open Scope Z_scope.

Lemma stripPrefix_app (prefix s : JsString) :
  stripPrefix prefix (prefix ++ s) = Some s.
Proof.
  induction prefix as [|p ps IH]; [reflexivity|].
  cbn. now rewrite Z.eqb_refl.
Qed.

Lemma stripPrefix_Some (prefix s rest : JsString) :
  stripPrefix prefix s = Some rest -> s = prefix ++ rest.
Proof.
  revert s. induction prefix as [|p ps IH]; intros s H.
  - cbn in H. destruct s; now injection H as <-.
  - destruct s as [|c cs]; [discriminate|]. cbn in H.
    destruct (p =? c) eqn:Hpc; [|discriminate].
    apply Z.eqb_eq in Hpc. subst c. cbn. f_equal. now apply IH.
Qed.

Lemma spanNot_app (sep : Z) (taken rest : JsString) :
  ~ In sep taken ->
  spanNot sep (taken ++ sep :: rest) = (taken, sep :: rest).
Proof.
  induction taken as [|c cs IH]; intros Hnot.
  - cbn. now rewrite Z.eqb_refl.
  - cbn. destruct (c =? sep) eqn:Hc.
    + apply Z.eqb_eq in Hc. exfalso. apply Hnot. now left.
    + rewrite IH; [reflexivity|]. intros Hin. apply Hnot. now right.
Qed.

Lemma spanNot_spec (sep : Z) (s taken rest : JsString) :
  spanNot sep s = (taken, rest) ->
  s = taken ++ rest /\ ~ In sep taken
  /\ (rest = [] \/ exists rest', rest = sep :: rest').
Proof.
  revert taken rest. induction s as [|c cs IH]; intros taken rest H.
  - injection H as <- <-. repeat split; auto.
  - cbn in H. destruct (c =? sep) eqn:Hc.
    + injection H as <- <-. apply Z.eqb_eq in Hc. subst c.
      repeat split; auto. right. now exists cs.
    + destruct (spanNot sep cs) as [t r] eqn:Hspan.
      injection H as <- <-.
      destruct (IH t r eq_refl) as (Heq & Hnot & Hrest).
      apply Z.eqb_neq in Hc.
      split; [cbn; now rewrite Heq|].
      split; [|exact Hrest].
      intros [Hin | Hin]; [now apply Hc | now apply Hnot].
Qed.

(** X14 -- What [dataUrlToBase64] accepts, and what it returns.  It returns
    [{ mimeType: m, data: d }] exactly for the strings
    ["data:" ++ m ++ ";base64," ++ d] in which [m] is not empty and has no
    semicolon, and [d] is not empty and has no line terminator; on every
    other string it throws.  The payload is not checked to be base64. *)
Theorem dataUrlToBase64_accepts (dataUrl m d : JsString) :
  dataUrlToBase64 dataUrl = inr {| mimeType := m; data := d |}
  <-> dataUrl = codeUnits "data:" ++ m ++ codeUnits ";base64," ++ d
      /\ m <> [] /\ ~ In 59 m
      /\ d <> [] /\ existsb isLineTerminator d = false.
Proof.
  unfold dataUrlToBase64, matchDataUrl. split.
  - destruct (stripPrefix (codeUnits "data:") dataUrl) as [rest|] eqn:H1;
      [|discriminate].
    destruct (spanNot 59 rest) as [g1 rest'] eqn:H2.
    destruct g1 as [|c g1]; [discriminate|].
    destruct (stripPrefix (codeUnits ";base64,") rest') as [g2|] eqn:H3;
      [|discriminate].
    destruct g2 as [|c2 g2]; [discriminate|].
    destruct (existsb isLineTerminator (c2 :: g2)) eqn:H4; [discriminate|].
    intros H. injection H as <- <-.
    apply stripPrefix_Some in H1, H3.
    destruct (spanNot_spec _ _ _ _ H2) as (Heq & Hnot & _).
    subst. repeat split; auto; discriminate.
  - intros (-> & Hm & Hsemi & Hd & Hterm).
    rewrite stripPrefix_app.
    change (codeUnits ";base64," ++ d)
      with (59 :: codeUnits "base64," ++ d).
    rewrite spanNot_app by exact Hsemi.
    destruct m as [|c m]; [contradiction|].
    change (59 :: codeUnits "base64," ++ d)
      with (codeUnits ";base64," ++ d).
    rewrite stripPrefix_app.
    destruct d as [|c2 d]; [contradiction|].
    now rewrite Hterm.
Qed.

Lemma dataUrlToBase64_accepts_witness :
  dataUrlToBase64 (codeUnits "data:image/png;base64,iVBORw0KGgo=")
  = inr {| mimeType := codeUnits "image/png";
           data := codeUnits "iVBORw0KGgo=" |}.
Proof.
  apply (dataUrlToBase64_accepts _ (codeUnits "image/png")
           (codeUnits "iVBORw0KGgo=")).
  repeat split; try discriminate.
  vm_compute. intuition discriminate.
Defined.

End DataUrlFacts.

(** ** Initial positioning *)

Section PositioningFacts.
Import Geo Measures Positioning.
Local Open Scope R_scope.

Lemma truthyNumber_Some (v : R) : truthyNumber (Some v) = true <-> v <> 0.
Proof. cbn. destruct (Req_EM_T v 0); split; intros; congruence. Qed.

Lemma orNumber_Some (v d : R) : v <> 0 -> orNumber (Some v) d = v.
Proof. intros H. cbn. destruct (Req_EM_T v 0); [contradiction | reflexivity]. Qed.

(** X15 -- The size used for the first placement is always between 10 and 500
    meters: an estimate within that range is kept, a missing or zero
    estimate counts as 100, anything below 10 (negative estimates
    included) becomes 10 and anything above 500 becomes 500. *)
Theorem clampedSize_range (estimatedSizeMeters : option R) :
  10 <= clampedSize estimatedSizeMeters <= 500
  /\ (estimatedSizeMeters = None \/ estimatedSizeMeters = Some 0 ->
      clampedSize estimatedSizeMeters = 100)
  /\ (forall v, estimatedSizeMeters = Some v ->
        (10 <= v <= 500 -> clampedSize estimatedSizeMeters = v)
        /\ (v < 10 -> v <> 0 -> clampedSize estimatedSizeMeters = 10)
        /\ (500 < v -> clampedSize estimatedSizeMeters = 500)).
Proof.
  unfold clampedSize. cbv zeta.
  assert (Hclamp : forall x, 10 <= Rmax 10 (Rmin 500 x) <= 500
                     /\ (10 <= x <= 500 -> Rmax 10 (Rmin 500 x) = x)
                     /\ (x < 10 -> Rmax 10 (Rmin 500 x) = 10)
                     /\ (500 < x -> Rmax 10 (Rmin 500 x) = 500)).
  { intros x. unfold Rmax, Rmin.
    destruct (Rle_dec 500 x); destruct (Rle_dec 10 _); repeat split;
      intros; lra. }
  split; [apply Hclamp|]. split.
  - intros [-> | ->]; cbn.
    + apply Hclamp; lra.
    + destruct (Req_EM_T 0 0); [apply Hclamp; lra | contradiction].
  - intros v ->. repeat split; intros.
    + rewrite orNumber_Some by lra. apply Hclamp; lra.
    + rewrite orNumber_Some by assumption. apply Hclamp; lra.
    + rewrite orNumber_Some by lra. apply Hclamp; lra.
Qed.

Lemma clampedSize_range_witness :
  clampedSize (Some 20000) = 500.
Proof.
  destruct (clampedSize_range (Some 20000)) as (_ & _ & H).
  destruct (H 20000 eq_refl) as (_ & _ & Hbig). apply Hbig. lra.
Defined.

(** A number field is falsy exactly when it is missing or zero. *)
Lemma truthyNumber_false (x : option R) :
  truthyNumber x = false <-> x = None \/ x = Some 0.
Proof.
  unfold truthyNumber. destruct x as [v|].
  - destruct (Req_EM_T v 0) as [->|Hv]; split; auto.
    + discriminate.
    + intros [H|H]; [discriminate|]. injection H as ->. contradiction.
  - split; auto.
Qed.

(** X16 -- [/api/bounds/calculate] answers with bounds exactly when latitude,
    longitude and size are all present and different from zero, and then
    with [calculateBounds] at the aspect ratio given, or at 1 when it is
    missing or zero; when one of the three is missing or zero -- so also
    for a center on the equator or on the prime meridian -- it answers
    with status 400 and the error
    ["center (lat, lng) and sizeMeters required"]. *)
Theorem boundsCalculate_answers (req : BoundsRequest) (b : Bounds) :
  (boundsCalculate req = Ok b
   <-> exists la lo size,
         pointLat req = Some la /\ pointLng req = Some lo
         /\ sizeMeters req = Some size
         /\ la <> 0 /\ lo <> 0 /\ size <> 0
         /\ b = calculateBounds {| lat := la; lng := lo |} size
                  (orNumber (aspectRatio req) 1))
  /\ (boundsCalculate req
      = Failed 400 "center (lat, lng) and sizeMeters required"
      <-> pointLat req = None \/ pointLat req = Some 0
          \/ pointLng req = None \/ pointLng req = Some 0
          \/ sizeMeters req = None \/ sizeMeters req = Some 0)
  /\ (forall status error,
         boundsCalculate req = Failed status error ->
         status = 400%Z
         /\ error = "center (lat, lng) and sizeMeters required"%string).
Proof.
  split; [|split].
  - unfold boundsCalculate. split.
    + destruct (pointLat req) as [la|]; [|discriminate].
      destruct (pointLng req) as [lo|];
        [|rewrite andb_false_r; discriminate].
      destruct (sizeMeters req) as [size|];
        [|rewrite andb_false_r; discriminate].
      destruct (truthyNumber (Some la)) eqn:H1; [|discriminate].
      destruct (truthyNumber (Some lo)) eqn:H2; [|discriminate].
      destruct (truthyNumber (Some size)) eqn:H3; [|discriminate].
      cbn. intros H. injection H as <-.
      apply truthyNumber_Some in H1, H2, H3.
      exists la, lo, size. repeat split; assumption.
    + intros (la & lo & size & -> & -> & -> & H1 & H2 & H3 & ->).
      apply truthyNumber_Some in H1, H2, H3. rewrite H1, H2, H3.
      reflexivity.
  - unfold boundsCalculate.
    destruct (truthyNumber (pointLat req)) eqn:H1;
      destruct (truthyNumber (pointLng req)) eqn:H2;
      destruct (truthyNumber (sizeMeters req)) eqn:H3;
      cbn [andb negb];
      try (split; [intros _|reflexivity];
           repeat match goal with
                  | H : truthyNumber _ = false |- _ =>
                      apply truthyNumber_false in H
                  end; tauto).
    split; [discriminate|].
    intros H.
    assert (Hf : truthyNumber (pointLat req) = false
                 \/ truthyNumber (pointLng req) = false
                 \/ truthyNumber (sizeMeters req) = false).
    { rewrite !truthyNumber_false. tauto. }
    rewrite H1, H2, H3 in Hf. destruct Hf as [Hf|[Hf|Hf]]; discriminate.
  - intros status error. unfold boundsCalculate.
    destruct (negb _); [|discriminate].
    intros H. injection H as <- <-. split; reflexivity.
Qed.

Lemma boundsCalculate_answers_witness :
  boundsCalculate
    {| pointLat := Some 33; pointLng := Some (-112); cornerPosition := None;
       sizeMeters := Some 200; aspectRatio := None |}
  = Ok (calculateBounds {| lat := 33; lng := -112 |} 200 1)
  /\ boundsCalculate
       {| pointLat := Some 0; pointLng := Some (-112); cornerPosition := None;
          sizeMeters := Some 200; aspectRatio := None |}
     = Failed 400 "center (lat, lng) and sizeMeters required".
Proof.
  split.
  - apply boundsCalculate_answers. exists 33, (-112), 200.
    cbn. repeat split; lra.
  - apply (boundsCalculate_answers
             {| pointLat := Some 0; pointLng := Some (-112);
                cornerPosition := None; sizeMeters := Some 200;
                aspectRatio := None |}
             {| north := 0; south := 0; east := 0; west := 0 |}).
    right. left. reflexivity.
Defined.

(** Both calculators return a valid box for a positive size. *)
Lemma calculators_valid (c : LatLng) (p : CornerPosition) (s a : R) :
  s > 0 -> a > 0 -> -90 < lat c < 90 ->
  validBounds (calculateBounds c s a)
  /\ validBounds (calculateBoundsFromCorner c p s a).
Proof.
  intros Hs Ha Hlat.
  destruct (calculateBounds_spans c s a) as [H1 H2].
  destruct (calculateBoundsFromCorner_spans c p s a) as [H3 H4].
  destruct (degrees_pos (heightOf s a) (lat c)) as [Hh _];
    [now apply heightOf_pos | exact Hlat |].
  destruct (degrees_pos (widthOf s a) (lat c)) as [_ Hw];
    [now apply widthOf_pos | exact Hlat |].
  cbv zeta in *. unfold validBounds. repeat split; lra.
Qed.

Lemma clampedSize_bounds (e : option R) : 10 <= clampedSize e <= 500.
Proof.
  unfold clampedSize, Rmax, Rmin. cbv zeta.
  destruct (Rle_dec 500 _); destruct (Rle_dec 10 _); lra.
Qed.

(** The answer the client step gets, for a geocoded point off both axes. *)
Lemma initialBounds_unfold (e : option R) (useCornerBased : bool)
    (corner : option string) (g : LatLng) (a : R) :
  lat g <> 0 -> lng g <> 0 -> a <> 0 ->
  initialBounds e useCornerBased corner g a
  = Some (if useCornerBased && truthyString corner
          then calculateBoundsFromCorner g
                 (cornerOfString (stringOf corner)) (clampedSize e) a
          else calculateBounds g (clampedSize e) a).
Proof.
  intros Hlat Hlng Ha. pose proof (clampedSize_bounds e) as Hsize.
  unfold initialBounds, boundsFromCorner, boundsCalculate. cbv zeta.
  cbn [pointLat pointLng sizeMeters aspectRatio cornerPosition numberOf].
  assert (H1 : truthyNumber (Some (lat g)) = true)
    by now apply truthyNumber_Some.
  assert (H2 : truthyNumber (Some (lng g)) = true)
    by now apply truthyNumber_Some.
  assert (H3 : truthyNumber (Some (clampedSize e)) = true)
    by (apply truthyNumber_Some; lra).
  rewrite H1, H2, H3, (orNumber_Some a 1 Ha).
  destruct g as [la lo]. cbn [lat lng].
  destruct (useCornerBased && truthyString corner) eqn:Hc.
  - apply andb_true_iff in Hc. destruct Hc as [_ Hc]. now rewrite Hc.
  - reflexivity.
Qed.

(** X17 -- First placement.  For a geocoded point strictly between the poles and
    off the equator and the prime meridian, and a positive page aspect
    ratio, the client obtains bounds with [north > south] and
    [east > west], whose longest side measures the clamped size (between
    10 and 500 meters) and whose width-to-height ratio is the page's,
    whatever size was extracted and whichever anchoring is used; without
    corner anchoring they are centered on the geocoded point. *)
Theorem initialBounds_valid (e : option R) (useCornerBased : bool)
    (corner : option string) (g : LatLng) (a : R) :
  lat g <> 0 -> lng g <> 0 -> -90 < lat g < 90 -> a > 0 ->
  exists b,
    initialBounds e useCornerBased corner g a = Some b
    /\ validBounds b
    /\ Rmax (widthMetersAt (lat g) b) (heightMetersOf b) = clampedSize e
    /\ 10 <= clampedSize e <= 500
    /\ widthMetersAt (lat g) b = a * heightMetersOf b
    /\ (useCornerBased && truthyString corner = false -> centerOf b = g).
Proof.
  intros Hlat0 Hlng0 Hlat Ha.
  pose proof (clampedSize_bounds e) as Hsize.
  rewrite initialBounds_unfold by (assumption || lra).
  set (p := cornerOfString (stringOf corner)).
  destruct (calculators_valid g p (clampedSize e) a) as [V1 V2]; try lra.
  destruct (calculators_extents g p (clampedSize e) a Hlat)
    as (E1 & E2 & E3 & E4).
  eexists. split; [reflexivity|].
  destruct (useCornerBased && truthyString corner).
  - rewrite E3, E4. split; [exact V2|].
    split; [apply longest_side; lra|]. split; [lra|].
    split; [apply widthOf_ratio; lra | discriminate].
  - rewrite E1, E2. split; [exact V1|].
    split; [apply longest_side; lra|]. split; [lra|].
    split; [apply widthOf_ratio; lra|].
    intros _. rewrite calculateBounds_unfold. destruct g as [la lo].
    unfold centerOf. cbn. f_equal; lra.
Qed.

Lemma initialBounds_valid_witness :
  exists b,
    initialBounds (Some 20000) false None {| lat := 33; lng := -112 |} (3 / 2)
    = Some b
    /\ validBounds b
    /\ Rmax (widthMetersAt 33 b) (heightMetersOf b) = clampedSize (Some 20000).
Proof.
  destruct (initialBounds_valid (Some 20000) false None
              {| lat := 33; lng := -112 |} (3 / 2))
    as (b & H1 & H2 & H3 & _); cbn; try lra.
  exists b. auto.
Defined.

(** X18 -- A geocoded point exactly on the equator or on the prime meridian
    gets no bounds: both endpoints take the zero coordinate for a missing
    one and answer with an error. *)
Theorem initialBounds_none_on_axes (e : option R) (useCornerBased : bool)
    (corner : option string) (g : LatLng) (a : R) :
  lat g = 0 \/ lng g = 0 ->
  initialBounds e useCornerBased corner g a = None.
Proof.
  intros Hzero.
  assert (Hf : truthyNumber (Some (lat g)) && truthyNumber (Some (lng g))
               = false).
  { destruct Hzero as [H | H]; rewrite H; cbn;
      destruct (Req_EM_T 0 0); try contradiction;
      [reflexivity | apply andb_false_r]. }
  unfold initialBounds, boundsFromCorner, boundsCalculate. cbv zeta.
  cbn [pointLat pointLng sizeMeters aspectRatio cornerPosition].
  rewrite Hf. cbn [andb negb].
  now destruct (useCornerBased && truthyString corner).
Qed.

Lemma initialBounds_none_on_axes_witness :
  initialBounds (Some 100) false None {| lat := 0; lng := 32 |} 1 = None.
Proof. apply initialBounds_none_on_axes. left. reflexivity. Defined.

End PositioningFacts.

(** ** Client geocoding step *)

Section GeocodeStageFacts.
Import Geo Geocoding Positioning GeocodeStage.
Local Open Scope string_scope.

Variable World : Type.
Variable Points : Type.
Variable postGeocode :
  ApiRequest -> World -> Outcome (option GeocodeData) * World.
Variable postRoadGeometry :
  ApiRequest -> World -> Outcome (option Points) * World.

Local Notation "'stage'" :=
  (geocodeStage World Points postGeocode postRoadGeometry).
Local Notation "'intersectionAttempt'" :=
  (tryIntersection World Points postGeocode postRoadGeometry).
Local Notation "'roadRequests'" :=
  (fetchRoads World Points postRoadGeometry).

Lemma append_empty (a b : string) : a ++ b = "" -> a = "" /\ b = "".
Proof. destruct a; cbn; [auto | discriminate]. Qed.

Lemma concat_empty (l : list string) :
  String.concat ", " l = "" -> l = [] \/ l = [""].
Proof.
  destruct l as [|x [|y r]]; cbn.
  - auto.
  - intros ->. auto.
  - intros H. apply append_empty in H. destruct H as [_ H]. discriminate.
Qed.

Lemma truthyString_true (s : option string) :
  truthyString s = true -> exists v, s = Some v /\ v <> "".
Proof.
  destruct s as [[|c v]|]; try discriminate.
  intros _. eexists. split; [reflexivity | discriminate].
Qed.

Lemma filterBoolean_In (parts : list (option string)) (p : option string) :
  In p parts -> truthyString p = true -> In (orEmpty p) (filterBoolean parts).
Proof.
  intros Hin Ht. unfold filterBoolean. apply in_flat_map.
  exists p. split; [exact Hin|]. rewrite Ht. now left.
Qed.

Lemma filterBoolean_nonempty (parts : list (option string)) (s : string) :
  In s (filterBoolean parts) -> s <> "".
Proof.
  unfold filterBoolean. intros Hin. apply in_flat_map in Hin.
  destruct Hin as (p & _ & Hin).
  destruct (truthyString p) eqn:Ht; [|contradiction].
  destruct Hin as [<- | []].
  destruct (truthyString_true _ Ht) as (v & -> & Hv). exact Hv.
Qed.

(** An empty full address means that address, city and state are all
    missing or empty. *)
Lemma fullAddress_empty (e : ExtractedPlanData) :
  fullAddressOf e = ""
  <-> truthyString (address e) = false
      /\ truthyString (city e) = false
      /\ truthyString (state e) = false.
Proof.
  unfold fullAddressOf. split.
  - intros H. apply concat_empty in H.
    assert (Hnone : forall p, In p [address e; city e; state e] ->
                      truthyString p = false).
    { intros p Hin. destruct (truthyString p) eqn:Ht; [|reflexivity].
      pose proof (filterBoolean_In _ _ Hin Ht) as Hp.
      pose proof (filterBoolean_nonempty _ _ Hp) as Hne.
      destruct H as [H | H]; rewrite H in Hp; cbn in Hp.
      - contradiction.
      - destruct Hp as [Hp | []]. now symmetry in Hp. }
    repeat split; apply Hnone; cbn; auto.
  - intros (H1 & H2 & H3). unfold filterBoolean. cbn.
    now rewrite H1, H2, H3.
Qed.

(** The road requests never fail the step, and are sent for the given
    names in order. *)
Lemma fetchRoads_sent (data : GeocodeData) (e : ExtractedPlanData)
    (names : list string) :
  forall (index : nat) (w : World),
  exists polylines w',
    roadRequests names index data e w
    = (Resolved polylines, w',
       List.map (fun n => RoadGeometryRequest n (geoLat data) (geoLng data)
                            (city e) (orEmpty (state e)) 1000) names).
Proof.
  induction names as [|n rest IH]; intros index w.
  - eexists _, _. reflexivity.
  - cbn [fetchRoads List.map]. unfold andThen at 1, tryRoadGeometry.
    destruct (postRoadGeometry _ w) as [[answer | err] w1].
    + destruct (IH (S index) w1) as (pls & w2 & Hrest).
      unfold andThen at 1. rewrite Hrest. cbn. rewrite app_nil_r.
      eexists _, _. reflexivity.
    + destruct (IH (S index) w1) as (pls & w2 & Hrest).
      unfold andThen at 1. rewrite Hrest. cbn. rewrite app_nil_r.
      eexists _, _. reflexivity.
Qed.

(** The intersection attempt when the first intersection has a known
    corner and a city was extracted. *)
Lemma tryIntersection_sends (e : ExtractedPlanData) (w : World)
    (first : ExtractedIntersection) (rest : list ExtractedIntersection) :
  intersections e = Some (first :: rest) ->
  corner first <> "unknown" ->
  truthyString (city e) = true ->
  let request :=
    GeocodeIntersectionRequest (road1 first) (road2 first)
      (orEmpty (city e)) (orEmpty (state e)) in
  (forall data w1,
      postGeocode request w = (Resolved (Some data), w1) ->
      exists polylines w2,
        intersectionAttempt e w
        = (Resolved (Some data, true,
                     (if isCorner (corner first)
                      then Some (corner first) else None),
                     polylines),
           w2,
           request
           :: List.map
                (fun n => RoadGeometryRequest n (geoLat data) (geoLng data)
                            (city e) (orEmpty (state e)) 1000)
                (dedupe []
                   (match roads e with
                    | Some l => List.map name l
                    | None => []
                    end))))
  /\ (forall w1,
        postGeocode request w = (Resolved None, w1) ->
        intersectionAttempt e w
        = (Resolved (None, false, None, []), w1, [request]))
  /\ (forall err w1,
        postGeocode request w = (Rejected err, w1) ->
        intersectionAttempt e w = (Rejected err, w1, [request])).
Proof.
  intros Hi Hu Hc. unfold tryIntersection. rewrite Hi. cbn [hd_error].
  apply String.eqb_neq in Hu. rewrite Hu, Hc. cbn [negb andb].
  repeat split.
  - intros data w1 Hpost. unfold andThen at 1, awaitGeocode. rewrite Hpost.
    set (names := dedupe [] _).
    destruct (fetchRoads_sent data e names 0 w1) as (pls & w2 & Hroads).
    unfold andThen at 1. rewrite Hroads. cbn. rewrite app_nil_r.
    eexists _, _. reflexivity.
  - intros w1 Hpost. unfold andThen at 1, awaitGeocode. rewrite Hpost.
    reflexivity.
  - intros err w1 Hpost. unfold andThen at 1, awaitGeocode. rewrite Hpost.
    reflexivity.
Qed.

(** Without a city nothing is attempted. *)
Lemma tryIntersection_needs_city (e : ExtractedPlanData) (w : World) :
  truthyString (city e) = false ->
  intersectionAttempt e w = (Resolved (None, false, None, []), w, []).
Proof.
  intros Hc. unfold tryIntersection. rewrite Hc.
  destruct (hd_error _); [rewrite andb_false_r|]; reflexivity.
Qed.

(** Either nothing is attempted, or the intersection request is sent. *)
Lemma tryIntersection_cases (e : ExtractedPlanData) (w : World) :
  intersectionAttempt e w = (Resolved (None, false, None, []), w, [])
  \/ exists first rest,
       intersections e = Some (first :: rest)
       /\ corner first <> "unknown"
       /\ truthyString (city e) = true.
Proof.
  unfold tryIntersection.
  destruct (intersections e) as [[|first rest]|]; cbn [hd_error];
    try (left; reflexivity).
  destruct (String.eqb (corner first) "unknown") eqn:Hu; cbn [negb andb];
    [left; reflexivity|].
  destruct (truthyString (city e)) eqn:Hc; [|left; reflexivity].
  right. exists first, rest. apply String.eqb_neq in Hu. auto.
Qed.

(** The step once the intersection attempt has left no data. *)
Lemma stage_after_no_intersection (e : ExtractedPlanData) (w w1 : World)
    (sent1 : list ApiRequest) :
  intersectionAttempt e w = (Resolved (None, false, None, []), w1, sent1) ->
  fullAddressOf e <> "" ->
  let request := GeocodeRequest (fullAddressOf e) in
  (forall data w2,
      postGeocode request w1 = (Resolved (Some data), w2) ->
      stage e w
      = (Resolved (mkStageResult data false None []), w2,
         (sent1 ++ [request])%list))
  /\ (forall w2,
        postGeocode request w1 = (Resolved None, w2) ->
        stage e w
        = (Rejected ("Geocoding failed for: " ++ fullAddressOf e), w2,
           (sent1 ++ [request])%list))
  /\ (forall err w2,
        postGeocode request w1 = (Rejected err, w2) ->
        stage e w = (Rejected err, w2, (sent1 ++ [request])%list)).
Proof.
  intros Hattempt Hfull request. subst request.
  apply String.eqb_neq in Hfull.
  repeat split; intros;
    unfold geocodeStage, andThen at 1; rewrite Hattempt, Hfull;
    cbn [negb]; unfold andThen, awaitGeocode;
    match goal with H : postGeocode _ _ = _ |- _ => rewrite H end;
    cbn; rewrite ?app_nil_r; reflexivity.
Qed.

(** X19 -- With no address, city or state the step gives up at once.  When the
    three fields are all missing or empty, the step throws "No address or
    roads found to geocode" without sending any request, whatever roads
    and intersections were extracted: the road-based last resort needs
    the city it has just found missing. *)
Theorem geocodeStage_without_address (e : ExtractedPlanData) (w : World) :
  truthyString (address e) = false ->
  truthyString (city e) = false ->
  truthyString (state e) = false ->
  stage e w = (Rejected "No address or roads found to geocode", w, []).
Proof.
  intros Ha Hc Hs.
  assert (Hfull : fullAddressOf e = "") by (apply fullAddress_empty; auto).
  unfold geocodeStage, andThen at 1.
  rewrite (tryIntersection_needs_city e w Hc), Hfull. cbn [String.eqb negb].
  unfold andThen, tryRoadAddress. rewrite Hc.
  now destruct (hd_error _).
Qed.

(** X20 -- Intersection first.  When the first extracted intersection has a
    corner other than "unknown", a city was extracted and the
    intersection endpoint answers with a point, the step ends with that
    point and [useCornerBased] set, keeps the corner if it is one of the
    four corner names, and sends nothing to the address endpoint: after
    the intersection request come one road request per distinct road
    name, in order of first appearance, whose failures are ignored. *)
Theorem geocodeStage_intersection_first (e : ExtractedPlanData) (w w1 : World)
    (first : ExtractedIntersection) (rest : list ExtractedIntersection)
    (data : GeocodeData) :
  intersections e = Some (first :: rest) ->
  corner first <> "unknown" ->
  truthyString (city e) = true ->
  let request :=
    GeocodeIntersectionRequest (road1 first) (road2 first)
      (orEmpty (city e)) (orEmpty (state e)) in
  postGeocode request w = (Resolved (Some data), w1) ->
  exists polylines w2,
    stage e w
    = (Resolved
         (mkStageResult data true
            (if isCorner (corner first) then Some (corner first) else None)
            polylines),
       w2,
       request
       :: List.map
            (fun n => RoadGeometryRequest n (geoLat data) (geoLng data)
                        (city e) (orEmpty (state e)) 1000)
            (dedupe []
               (match roads e with
                | Some l => List.map name l
                | None => []
                end))).
Proof.
  intros Hi Hu Hc request Hpost.
  destruct (tryIntersection_sends e w first rest Hi Hu Hc) as (Hok & _ & _).
  destruct (Hok data w1 Hpost) as (pls & w2 & Hattempt).
  exists pls, w2. unfold geocodeStage, andThen at 1. rewrite Hattempt.
  cbn. now rewrite app_nil_r.
Qed.

(** X21 -- Address fallback.  When the intersection request is answered
    without a point, the step next geocodes the address made of the
    extracted address, city and state that are present, joined by ", ".
    A point in answer ends the step with [useCornerBased] unset; an
    answer without a point makes it throw "Geocoding failed for: ..."
    and no further request is sent. *)
Theorem geocodeStage_address_fallback (e : ExtractedPlanData) (w w1 : World)
    (first : ExtractedIntersection) (rest : list ExtractedIntersection) :
  intersections e = Some (first :: rest) ->
  corner first <> "unknown" ->
  truthyString (city e) = true ->
  let request1 :=
    GeocodeIntersectionRequest (road1 first) (road2 first)
      (orEmpty (city e)) (orEmpty (state e)) in
  let request2 := GeocodeRequest (fullAddressOf e) in
  postGeocode request1 w = (Resolved None, w1) ->
  (forall data w2,
      postGeocode request2 w1 = (Resolved (Some data), w2) ->
      stage e w
      = (Resolved (mkStageResult data false None []), w2,
         [request1; request2]))
  /\ (forall w2,
        postGeocode request2 w1 = (Resolved None, w2) ->
        stage e w
        = (Rejected ("Geocoding failed for: " ++ fullAddressOf e), w2,
           [request1; request2])).
Proof.
  intros Hi Hu Hc request1 request2 Hpost.
  destruct (tryIntersection_sends e w first rest Hi Hu Hc) as (_ & Hno & _).
  specialize (Hno w1 Hpost).
  assert (Hfull : fullAddressOf e <> "").
  { intros H. apply fullAddress_empty in H. destruct H as (_ & H & _).
    congruence. }
  destruct (stage_after_no_intersection e w w1 _ Hno Hfull) as (H1 & H2 & _).
  split; [exact H1 | exact H2].
Qed.

End GeocodeStageFacts.

Lemma geocodeStage_without_address_witness :
  GeocodeStage.geocodeStage nat (list (R * R))
    StageSamples.addressOnly StageSamples.roadsDown
    StageSamples.roadsOnly 0%nat
  = (Geocoding.Rejected "No address or roads found to geocode"%string,
     0%nat, []).
Proof.
  apply (geocodeStage_without_address nat (list (R * R))
           StageSamples.addressOnly StageSamples.roadsDown
           StageSamples.roadsOnly 0%nat); reflexivity.
Defined.

Lemma geocodeStage_intersection_first_witness :
  exists polylines served,
    GeocodeStage.geocodeStage nat (list (R * R))
      StageSamples.intersectionOnly StageSamples.roadsDown
      StageSamples.sunCity 0%nat
    = (Geocoding.Resolved
         (GeocodeStage.mkStageResult StageSamples.sunCityPoint true
            (Some "southwest"%string) polylines),
       served,
       [ GeocodeStage.GeocodeIntersectionRequest
           "99th Ave" "Thunderbird Blvd" "Sun City" "AZ";
         GeocodeStage.RoadGeometryRequest "99th Ave"
           (33623 / 1000) (-112283 / 1000) (Some "Sun City"%string) "AZ" 1000;
         GeocodeStage.RoadGeometryRequest "Thunderbird Blvd"
           (33623 / 1000) (-112283 / 1000) (Some "Sun City"%string) "AZ" 1000 ]).
Proof.
  apply (geocodeStage_intersection_first nat (list (R * R))
           StageSamples.intersectionOnly StageSamples.roadsDown
           StageSamples.sunCity 0%nat 1%nat
           {| GeocodeStage.road1 := "99th Ave";
              GeocodeStage.road2 := "Thunderbird Blvd";
              GeocodeStage.corner := "southwest" |} []
           StageSamples.sunCityPoint).
  - reflexivity.
  - discriminate.
  - reflexivity.
  - reflexivity.
Defined.

Lemma geocodeStage_address_fallback_witness :
  GeocodeStage.geocodeStage nat (list (R * R))
    StageSamples.addressOnly StageSamples.roadsDown
    StageSamples.sunCity 0%nat
  = (Geocoding.Resolved
       (GeocodeStage.mkStageResult StageSamples.sunCityPoint false None []),
     2%nat,
     [ GeocodeStage.GeocodeIntersectionRequest
         "99th Ave" "Thunderbird Blvd" "Sun City" "AZ";
       GeocodeStage.GeocodeRequest "13550 N 99th Ave, Sun City, AZ" ]).
Proof.
  assert (Hcorner : "southwest"%string <> "unknown"%string) by discriminate.
  destruct (geocodeStage_address_fallback nat (list (R * R))
              StageSamples.addressOnly StageSamples.roadsDown
              StageSamples.sunCity 0%nat 1%nat
              {| GeocodeStage.road1 := "99th Ave";
                 GeocodeStage.road2 := "Thunderbird Blvd";
                 GeocodeStage.corner := "southwest" |} []
              eq_refl Hcorner eq_refl eq_refl)
    as [Hok _].
  exact (Hok StageSamples.sunCityPoint 2%nat eq_refl).
Defined.

(** ** Road search segment *)

Section RoadSearchFacts.
Import Geo RoadSearch.
Local Open Scope R_scope.

(** X22 -- The segment searched for a road is centered on the given point and
    is twice the search radius long: it runs along the meridian for a
    road taken to run north-south, and along the parallel (measured at
    the point's latitude) otherwise. *)
Theorem searchEndpoints_segment (nearPoint : LatLng) (radius : R)
    (isNorthSouth : bool) :
  -90 < lat nearPoint < 90 ->
  let origin := fst (searchEndpoints nearPoint radius isNorthSouth) in
  let destination := snd (searchEndpoints nearPoint radius isNorthSouth) in
  (lat origin + lat destination) / 2 = lat nearPoint
  /\ (lng origin + lng destination) / 2 = lng nearPoint
  /\ (isNorthSouth = true ->
      lng origin = lng destination
      /\ (lat origin - lat destination) * 111000 = 2 * radius)
  /\ (isNorthSouth = false ->
      lat origin = lat destination
      /\ (lng destination - lng origin)
         * (cos (lat nearPoint * PI / 180) * 111000) = 2 * radius).
Proof.
  intros Hlat origin destination. subst origin destination.
  pose proof (cos_deg_pos _ Hlat) as Hcos.
  unfold searchEndpoints, METERS_PER_LAT_DEG.
  destruct isNorthSouth; cbn; repeat split; intros; try discriminate;
    try lra; field; lra.
Qed.

Lemma searchEndpoints_segment_witness :
  let ends := searchEndpoints {| lat := 33; lng := -112 |} 1000 false in
  lat (fst ends) = lat (snd ends)
  /\ (lng (snd ends) - lng (fst ends)) * (cos (33 * PI / 180) * 111000)
     = 2 * 1000.
Proof.
  intros ends.
  destruct (searchEndpoints_segment {| lat := 33; lng := -112 |} 1000 false)
    as (_ & _ & _ & H); [cbn; lra|].
  apply H. reflexivity.
Defined.

End RoadSearchFacts.

(** ** The intersection route *)

Section GeocodeRouteFacts.
Import Geocoding Positioning GeocodeRoute.
Local Open Scope string_scope.

Variable World : Type.
Variable GeocodingResult : Type.
Variable geocodeAddress :
  string -> World -> Outcome (option GeocodingResult) * World.

Local Notation "'route'" :=
  (handleGeocodeIntersection World GeocodingResult geocodeAddress).

(** X23 -- Status of the intersection route.  A body whose [road1], [road2] or
    [city] is missing or empty is answered with 400 and nothing is
    geocoded.  Otherwise the route asks the "&" phrasing, then the "and"
    phrasing if needed, with an empty state when none is given; it
    answers with the first point found, with 404 when both phrasings find
    nothing, and with 500 and the message of the failure when a geocoding
    call fails: the first one, after which the second phrasing is not
    asked, or the second one after the first found nothing. *)
Theorem handleGeocodeIntersection_status
    (road1 road2 city state : option string) (w : World) :
  (truthyString road1 && truthyString road2 && truthyString city = false ->
   route road1 road2 city state w
   = (Resolved (Failed 400 "road1, road2, and city required"), w, []))
  /\ (truthyString road1 && truthyString road2 && truthyString city = true ->
      let q1 := stringOf road1 ++ " & " ++ stringOf road2 ++ ", "
                ++ stringOf city ++ ", " ++ stringOf state in
      let q2 := stringOf road1 ++ " and " ++ stringOf road2 ++ ", "
                ++ stringOf city ++ ", " ++ stringOf state in
      (forall r w1,
          geocodeAddress q1 w = (Resolved (Some r), w1) ->
          route road1 road2 city state w = (Resolved (Ok r), w1, [q1]))
      /\ (forall w1 r w2,
            geocodeAddress q1 w = (Resolved None, w1) ->
            geocodeAddress q2 w1 = (Resolved (Some r), w2) ->
            route road1 road2 city state w = (Resolved (Ok r), w2, [q1; q2]))
      /\ (forall w1 w2,
            geocodeAddress q1 w = (Resolved None, w1) ->
            geocodeAddress q2 w1 = (Resolved None, w2) ->
            route road1 road2 city state w
            = (Resolved
                 (Failed 404
                    ("Could not geocode intersection: " ++ stringOf road1
                     ++ " & " ++ stringOf road2)),
               w2, [q1; q2]))
      /\ (forall message w1,
            geocodeAddress q1 w = (Rejected message, w1) ->
            route road1 road2 city state w
            = (Resolved (Failed 500 message), w1, [q1]))
      /\ (forall w1 message w2,
            geocodeAddress q1 w = (Resolved None, w1) ->
            geocodeAddress q2 w1 = (Rejected message, w2) ->
            route road1 road2 city state w
            = (Resolved (Failed 500 message), w2, [q1; q2]))).
Proof.
  split.
  - intros Hreq. unfold handleGeocodeIntersection, withErrorHandling.
    rewrite Hreq. reflexivity.
  - intros Hreq q1 q2. subst q1 q2.
    unfold handleGeocodeIntersection, withErrorHandling.
    rewrite Hreq. cbn [negb].
    unfold geocodeIntersection, Geocoding.bind, awaitGeocodeAddress.
    cbv zeta.
    repeat split.
    + intros r w1 H1. rewrite H1. reflexivity.
    + intros w1 r w2 H1 H2. rewrite H1, H2. reflexivity.
    + intros w1 w2 H1 H2. rewrite H1, H2. reflexivity.
    + intros message w1 H1. rewrite H1. reflexivity.
    + intros w1 message w2 H1 H2. rewrite H1, H2. reflexivity.
Qed.

End GeocodeRouteFacts.

Lemma handleGeocodeIntersection_status_witness :
  GeocodeRoute.handleGeocodeIntersection nat (Z * Z) Geocoding.andOnlyGeocoder
    (Some "Mill Ave"%string) (Some "Rural Rd"%string) (Some "Tempe"%string)
    None 0%nat
  = (Geocoding.Resolved
       (Positioning.Failed 404
          "Could not geocode intersection: Mill Ave & Rural Rd"),
     2%nat,
     [ "Mill Ave & Rural Rd, Tempe, "%string;
       "Mill Ave and Rural Rd, Tempe, "%string ])
  /\ GeocodeRoute.handleGeocodeIntersection nat (Z * Z)
       GeocodeRoute.failingAfterFirst
       (Some "Mill Ave"%string) (Some "Rural Rd"%string)
       (Some "Tempe"%string) None 0%nat
     = (Geocoding.Resolved (Positioning.Failed 500 "fetch failed"),
        2%nat,
        [ "Mill Ave & Rural Rd, Tempe, "%string;
          "Mill Ave and Rural Rd, Tempe, "%string ]).
Proof.
  split.
  - destruct (handleGeocodeIntersection_status nat (Z * Z)
                Geocoding.andOnlyGeocoder
                (Some "Mill Ave"%string) (Some "Rural Rd"%string)
                (Some "Tempe"%string) None 0%nat) as [_ H].
    destruct (H eq_refl) as (_ & _ & H404 & _).
    exact (H404 1%nat 2%nat eq_refl eq_refl).
  - destruct (handleGeocodeIntersection_status nat (Z * Z)
                GeocodeRoute.failingAfterFirst
                (Some "Mill Ave"%string) (Some "Rural Rd"%string)
                (Some "Tempe"%string) None 0%nat) as [_ H].
    destruct (H eq_refl) as (_ & _ & _ & _ & H500).
    exact (H500 1%nat "fetch failed"%string 2%nat eq_refl eq_refl).
Defined.

(** ** The decoder on a string cut after a latitude *)

Section PolylineTruncated.
Import Polyline PolylineFormat PolylineEnd.
Local Open Scope nat_scope.

(** The inner loop started at or past the end of the string reads NaN
    once and returns zero. *)
Lemma decodeGroup_past_end (encoded : JsString) (fuel idx : nat) :
  List.length encoded <= idx ->
  decodeGroup (S fuel) encoded idx 0 0 = Some (idx + 1, 0%Z).
Proof.
  intros Hidx. rewrite decodeGroup_S. cbv zeta.
  unfold charCodeAt.
  assert (Hnone : nth_error encoded idx = None)
    by now apply nth_error_None.
  rewrite Hnone. reflexivity.
Qed.

(** The outer loop through a run of complete pairs followed by anything. *)
Lemma decodeLoop_complete_then (pairs : list (list Z * list Z)) :
  forall (pre post : JsString) (fuel : nat) (lat lng : Z)
         (points : list LatLng),
    Forall (fun p => completeGroup (fst p) /\ completeGroup (snd p)) pairs ->
    6 <= fuel ->
    decodeLoop (List.length pairs + fuel) (pre ++ flatten pairs ++ post)
      (List.length pre) lat lng points
    = decodeLoop fuel (pre ++ flatten pairs ++ post)
        (List.length pre + List.length (flatten pairs))
        (fst (endFrom lat lng pairs)) (snd (endFrom lat lng pairs))
        (points ++ pathFrom lat lng pairs).
Proof.
  induction pairs as [|[glat glng] pairs IH];
    intros pre post fuel lat lng points Hall Hfuel.
  - cbn [flatten pathFrom endFrom List.length fst snd Nat.add app].
    now rewrite Nat.add_0_r, app_nil_r.
  - inversion Hall as [|p ps [Hlat Hlng] Hrest]; subst.
    cbn [fst snd] in Hlat, Hlng.
    pose proof (completeGroup_nonempty _ Hlat) as Hn1.
    pose proof (completeGroup_nonempty _ Hlng) as Hn2.
    assert (Hl1 : List.length glat <= 6)
      by (destruct Hlat as (c & l & _ & _ & _ & H); exact H).
    assert (Hl2 : List.length glng <= 6)
      by (destruct Hlng as (c & l & _ & _ & _ & H); exact H).
    cbn [List.length Nat.add]. rewrite decodeLoop_S.
    cbn [flatten pathFrom endFrom].
    assert (Hin : (List.length pre
                   <? List.length
                        (pre ++ (glat ++ glng ++ flatten pairs) ++ post))
                  = true)
      by (apply Nat.ltb_lt; rewrite !length_app; lia).
    rewrite Hin.
    replace (pre ++ (glat ++ glng ++ flatten pairs) ++ post)
      with (pre ++ glat ++ (glng ++ flatten pairs ++ post))
      by (now rewrite <- !app_assoc).
    rewrite (decodeGroup_complete glat pre (glng ++ flatten pairs ++ post))
      by (assumption || lia).
    replace (pre ++ glat ++ (glng ++ flatten pairs ++ post))
      with ((pre ++ glat) ++ glng ++ (flatten pairs ++ post))
      by (now rewrite <- !app_assoc).
    replace (List.length pre + List.length glat)
      with (List.length (pre ++ glat)) by (now rewrite length_app).
    rewrite (decodeGroup_complete glng (pre ++ glat) (flatten pairs ++ post))
      by (assumption || lia).
    replace ((pre ++ glat) ++ glng ++ (flatten pairs ++ post))
      with ((pre ++ glat ++ glng) ++ flatten pairs ++ post)
      by (now rewrite <- !app_assoc).
    replace (List.length (pre ++ glat) + List.length glng)
      with (List.length (pre ++ glat ++ glng))
      by (rewrite !length_app; lia).
    rewrite IH by assumption.
    f_equal.
    + rewrite !length_app. lia.
    + now rewrite <- app_assoc.
Qed.

(** X13 -- A string cut between a latitude and its longitude.  When the string
    is a run of complete pairs of groups followed by one more complete
    group, the decoder still returns a last point: its latitude is moved
    by that group, and its longitude is the previous one, the missing
    group counting for zero (relative to (0, 0) when there is no earlier
    point). *)
Theorem decodePolyline_missing_longitude
    (pairs : list (list Z * list Z)) (glat : list Z) :
  Forall (fun p => completeGroup (fst p) /\ completeGroup (snd p)) pairs ->
  completeGroup glat ->
  decodePolyline (flatten pairs ++ glat)
  = pathFrom 0 0 pairs
    ++ [ {| Polyline.lat :=
              inject_Z (fst (endFrom 0 0 pairs) + zigzag (groupValue glat))
              / 100000;
            Polyline.lng := inject_Z (snd (endFrom 0 0 pairs)) / 100000 |} ].
Proof.
  intros Hall Hlat.
  pose proof (completeGroup_nonempty _ Hlat) as Hn.
  assert (Hl : List.length glat <= 6)
    by (destruct Hlat as (c & l & _ & _ & _ & H); exact H).
  set (encoded := flatten pairs ++ glat).
  unfold decodePolyline, decodePolylineFuel.
  destruct (decodeLoop_total encoded (S (List.length encoded)) 0 0 0 [])
    as [out Hout]; [lia|].
  rewrite Hout.
  pose proof (decodeLoop_more_fuel encoded _
                (List.length pairs + (List.length encoded + 6)) _ _ _ _ _
                Hout ltac:(lia)) as Hbig.
  pose proof (decodeLoop_complete_then pairs [] glat
                (List.length encoded + 6) 0 0 [] Hall ltac:(lia)) as Hrun.
  cbn [app List.length Nat.add] in Hrun. fold encoded in Hrun.
  rewrite Hrun in Hbig. clear Hrun Hout.
  replace (List.length encoded + 6) with (S (List.length encoded + 5))
    in Hbig by lia.
  rewrite decodeLoop_S in Hbig.
  assert (Hin : (List.length (flatten pairs) <? List.length encoded) = true)
    by (apply Nat.ltb_lt; unfold encoded; rewrite length_app; lia).
  rewrite Hin in Hbig.
  assert (Hg1 : decodeGroup (S (List.length encoded + 5)) encoded
                  (List.length (flatten pairs)) 0 0
                = Some (List.length encoded, groupValue glat)).
  { pose proof (decodeGroup_complete glat (flatten pairs) []
                  (S (List.length encoded + 5)) Hlat ltac:(lia)) as H.
    rewrite app_nil_r in H. fold encoded in H. rewrite H.
    unfold encoded. now rewrite length_app. }
  rewrite Hg1 in Hbig.
  rewrite (decodeGroup_past_end encoded _ (List.length encoded)) in Hbig
    by lia.
  replace (List.length encoded + 5) with (S (List.length encoded + 4))
    in Hbig by lia.
  rewrite decodeLoop_S in Hbig.
  assert (Hout2 : (List.length encoded + 1 <? List.length encoded) = false)
    by (apply Nat.ltb_ge; lia).
  rewrite Hout2 in Hbig. injection Hbig as <-.
  change (zigzag 0) with 0%Z. rewrite Z.add_0_r. reflexivity.
Qed.

Lemma decodePolyline_missing_longitude_witness :
  decodePolyline (codeUnits "_p~iF~ps|U_ulL")
  = pathFrom 0 0 [ (codeUnits "_p~iF", codeUnits "~ps|U") ]
    ++ [ {| Polyline.lat := inject_Z (3850000 + 220000) / 100000;
            Polyline.lng := inject_Z (-12020000) / 100000 |} ].
Proof.
  apply (decodePolyline_missing_longitude
           [ (codeUnits "_p~iF", codeUnits "~ps|U") ] (codeUnits "_ulL")).
  - repeat constructor; apply completeGroupb_sound; vm_compute; reflexivity.
  - apply completeGroupb_sound; vm_compute; reflexivity.
Defined.

End PolylineTruncated.

(* ================================================================== *)
(** * Where double precision departs from real arithmetic *)
(* ================================================================== *)

Section DoublesFacts.
Import PrimFloat Doubles.
Local Open Scope float_scope.

(** The argument [Math.cos] receives for a point on the equator is zero. *)
Lemma equator_radians : (lat equatorPoint * Math_PI) / 180 = 0.
Proof. reflexivity. Qed.

(** Whatever [Math.cos] returns, a size of 2^-40 m is rounded away at
    latitude 33: the north and south edges are both 33. *)
Lemma tiny_size_collapses_latitude (Math_cos : float -> float) :
  let b := calculateBounds Math_cos {| lat := 33; lng := -112 |} 0x1p-40 1 in
  north b = 33 /\ south b = 33.
Proof. split; reflexivity. Qed.

(** On the equator, with any [Math.cos] that has [Math.cos(0) = 1], the
    same size is rounded away at longitude 100. *)
Lemma tiny_size_collapses_longitude (Math_cos : float -> float) :
  Math_cos 0 = 1 ->
  let b := calculateBounds Math_cos equatorPoint 0x1p-40 1 in
  east b = 100 /\ west b = 100.
Proof.
  intros Hcos.
  assert (Hz : Math_cos ((lat equatorPoint * Math_PI) / 180) = 1)
    by (rewrite equator_radians; exact Hcos).
  unfold calculateBounds. cbv zeta. cbn [east west].
  rewrite Hz. split; reflexivity.
Qed.



(** At the sizes the application works with the two arithmetics agree
    on both properties: on the equator, a size of 200 m gives a valid box
    whose extents in meters are within 0.1 percent of each other, and
    halving a valid box keeps it valid. *)
Lemma ordinary_size_in_doubles :
  let b := calculateBounds cosOfZero equatorPoint 200 1 in
  let h := heightMeters b in
  let w := widthMetersAt cosOfZero (lat equatorPoint) b in
  validBounds b = true
  /\ validBounds (calculateBoundsFromCorner cosOfZero equatorPoint southwest
                    200 1) = true
  /\ (abs (h - w) <=? d0_001 * abs h) = true
  /\ validBounds
       (applyAdjustment cosOfZero equatorBox
          {| shiftNorth := 0; shiftEast := 0; scaleFactor := 0.5 |}) = true.
Proof. repeat split; reflexivity. Qed.

End DoublesFacts.
